(** * The [demo] package of apps/indexing: a verified model

    The package consists of [demo/__init__.py], [demo/foo.py], [demo/bar.py],
    [demo/package/geometry.py] and [demo/package/algebra.py].  Its functions
    are embedded as Rocq functions (integers as [Z], text as [string], the
    numeric helpers over an interface of Python's [float] operations), and the
    three modules whose structure matters (definitions, call expressions,
    import bindings, the [Greeter] objects) are also transcribed as syntax
    trees and run by a small interpreter, so that statements about "which call
    sits where" and "which object a name is bound to" are statements about the
    program text and its execution. *)

From Stdlib Require Import ZArith String List Bool Lia Reals Lra Psatz Floats.
From stdpp Require Import base gmap strings list pretty.

Open Scope Z_scope.

(** ** Exceptions and results *)

Inductive exn :=
| NameError | TypeError | AttributeError | ImportError | ModuleNotFoundError
| ZeroDivisionError | OverflowError | ValueError.

(** The result of a pure computation: a value or a raised exception. *)
Inductive result (A : Type) :=
| Ok (a : A)
| Raise (e : exn).
Arguments Ok {A} a.
Arguments Raise {A} e.

Definition rbind {A B} (r : result A) (k : A -> result B) : result B :=
  match r with
  | Ok a => k a
  | Raise e => Raise e
  end.

(** ** Shallow embedding of [foo.py] and [bar.py]

    Python's [int] is unbounded, hence [Z]; [str] is [string]. *)

Module demo_foo.

(** [def _increment(y: int) -> int: return y + 1] *)
Definition _increment (y : Z) : Z := y + 1.

(** [def foo(x: int) -> int: return _increment(x)] *)
Definition foo (x : Z) : Z := _increment x.

End demo_foo.

Module demo_bar.

(** [from .foo import foo]: the name is bound to the object defined in
    [foo.py]. *)
Definition foo : Z -> Z := demo_foo.foo.

(** [def double_foo(x: int) -> int: return foo(x) * 2] *)
Definition double_foo (x : Z) : Z := foo x * 2.

(** [def triple_foo(x: int) -> int: return double_foo(x) + foo(x)] *)
Definition triple_foo (x : Z) : Z := double_foo x + foo x.

(** [def _format_greeting(name: str) -> str: return f"Hello, {name}!"] *)
Definition _format_greeting (name : string) : string :=
  "Hello, " +:+ name +:+ "!".

(** [class Greeter]: an instance carries the attribute [name]. *)
Record Greeter := { name : string }.

(** [def __init__(self, name: str): self.name = name] *)
Definition __init__ (n : string) : Greeter := {| name := n |}.

(** [def greet(self) -> str: return _format_greeting(self.name)] *)
Definition greet (self : Greeter) : string := _format_greeting (name self).

End demo_bar.

(** [demo/__init__.py]: [from .foo import foo] and
    [from .bar import double_foo, Greeter] bind the names of the package to
    the objects of the two modules; [__all__] lists the public names. *)
Module demo_init.

Definition foo : Z -> Z := demo_foo.foo.
Definition double_foo : Z -> Z := demo_bar.double_foo.
Definition Greeter : string -> demo_bar.Greeter := demo_bar.__init__.
Definition __all__ : list string := ["foo"; "double_foo"; "Greeter"; "package"].

End demo_init.

(** ** Python's [float] and [complex]

    [geometry.py] and [algebra.py] compute on [float].  Their code is embedded
    once, over the operations of the C double behind a Python [float]; the
    interface is instantiated by the real numbers (exact arithmetic) and by
    IEEE 754 binary64. *)
Class PyFloat (F : Type) := {
  of_int : Z -> F;
  fadd : F -> F -> F;
  fsub : F -> F -> F;
  fmul : F -> F -> F;
  fdiv : F -> F -> F;
  fneg : F -> F;
  fsqrt : F -> F;
  (** the C library's [pow(x, 2.0)] *)
  fpow2 : F -> F;
  feqb : F -> F -> bool;
  fltb : F -> F -> bool;
  fleb : F -> F -> bool;
  fis_nan : F -> bool;
  fis_inf : F -> bool;
  (** [math.pi] *)
  math_pi : F }.

(** Exact arithmetic: no NaN, no infinity, no rounding.  [math.pi] keeps its
    value, that of the double [0x1.921fb54442d18p+1]. *)
#[export] Instance Exact : PyFloat R := {
  of_int := IZR;
  fadd := Rplus;
  fsub := Rminus;
  fmul := Rmult;
  fdiv := Rdiv;
  fneg := Ropp;
  fsqrt := R_sqrt.sqrt;
  fpow2 := fun x => (x * x)%R;
  feqb := fun x y => if Req_dec_T x y then true else false;
  fltb := fun x y => if Rlt_dec x y then true else false;
  fleb := fun x y => if Rle_dec x y then true else false;
  fis_nan := fun _ => false;
  fis_inf := fun _ => false;
  math_pi := (884279719003555 / 281474976710656)%R }.

(** IEEE 754 binary64, the C double of CPython.  An [int] operand is rounded
    to the nearest double; [pow(x, 2.0)] is taken to be the correctly rounded
    square. *)
#[export] Instance Binary64 : PyFloat float := {
  of_int := fun n => SF2Prim (binary_normalize prec emax n 0 false);
  fadd := PrimFloat.add;
  fsub := PrimFloat.sub;
  fmul := PrimFloat.mul;
  fdiv := PrimFloat.div;
  fneg := PrimFloat.opp;
  fsqrt := PrimFloat.sqrt;
  fpow2 := fun x => PrimFloat.mul x x;
  feqb := PrimFloat.eqb;
  fltb := PrimFloat.ltb;
  fleb := PrimFloat.leb;
  fis_nan := PrimFloat.is_nan;
  fis_inf := PrimFloat.is_infinity;
  math_pi := 0x1.921fb54442d18p+1%float }.

(** The same doubles over a C library whose [pow(x, 2.0)] is [pow2]: the
    last bit of [pow] is the library's, not the standard's, and the two
    modules use it only through [** 2].  [Binary64] is [Libm] at the
    correctly rounded square. *)
Definition Libm (pow2 : float -> float) : PyFloat float := {|
  of_int := fun n => SF2Prim (binary_normalize prec emax n 0 false);
  fadd := PrimFloat.add;
  fsub := PrimFloat.sub;
  fmul := PrimFloat.mul;
  fdiv := PrimFloat.div;
  fneg := PrimFloat.opp;
  fsqrt := PrimFloat.sqrt;
  fpow2 := pow2;
  feqb := PrimFloat.eqb;
  fltb := PrimFloat.ltb;
  fleb := PrimFloat.leb;
  fis_nan := PrimFloat.is_nan;
  fis_inf := PrimFloat.is_infinity;
  math_pi := 0x1.921fb54442d18p+1%float |}.

Section Numeric.

Context {F : Type} `{PyFloat F}.

(** A number is a [float] or a [complex] (a pair of doubles). *)
Inductive number :=
| Float (x : F)
| Complex (real imag : F).

Definition fzero : F := of_int 0.
Definition fone : F := of_int 1.

(** [x ** 2] on a float ([float_pow] of CPython at exponent 2): the special
    values are answered first, the sign is dropped since the exponent is
    even, and an overflow of the C library's [pow] raises [OverflowError]. *)
Definition float_pow2 (x : F) : result F :=
  if fis_nan x then Ok x
  else if fis_inf x then Ok (if fltb x fzero then fneg x else x)
  else if feqb x fzero then Ok fzero
  else
    let ax := if fltb x fzero then fneg x else x in
    if feqb ax fone then Ok fone
    else
      let r := fpow2 ax in
      if fis_inf r then Raise OverflowError else Ok r.

(** [a / b] on floats: a zero divisor raises. *)
Definition float_truediv (a b : F) : result F :=
  if feqb b fzero then Raise ZeroDivisionError else Ok (fdiv a b).

(** [math.sqrt(x)]: a negative argument raises [ValueError]. *)
Definition math_sqrt (x : F) : result F :=
  if fltb x fzero then Raise ValueError else Ok (fsqrt x).

(** Complex arithmetic as in CPython's [complexobject.c]. *)
Definition c_sum (a b : F * F) : F * F :=
  (fadd (fst a) (fst b), fadd (snd a) (snd b)).

Definition c_diff (a b : F * F) : F * F :=
  (fsub (fst a) (fst b), fsub (snd a) (snd b)).

Definition c_prod (a b : F * F) : F * F :=
  (fsub (fmul (fst a) (fst b)) (fmul (snd a) (snd b)),
   fadd (fmul (fst a) (snd b)) (fmul (snd a) (fst b))).

Definition c_quot (a b : F * F) : result (F * F) :=
  let abs_breal := if fltb (fst b) fzero then fneg (fst b) else fst b in
  let abs_bimag := if fltb (snd b) fzero then fneg (snd b) else snd b in
  if fleb abs_bimag abs_breal then
    if feqb abs_breal fzero then Raise ZeroDivisionError
    else
      let ratio := fdiv (snd b) (fst b) in
      let denom := fadd (fst b) (fmul (snd b) ratio) in
      Ok (fdiv (fadd (fst a) (fmul (snd a) ratio)) denom,
          fdiv (fsub (snd a) (fmul (fst a) ratio)) denom)
  else if fleb abs_breal abs_bimag then
    let ratio := fdiv (fst b) (snd b) in
    let denom := fadd (fmul (fst b) ratio) (snd b) in
    Ok (fdiv (fadd (fmul (fst a) ratio) (snd a)) denom,
        fdiv (fsub (fmul (snd a) ratio) (fst a)) denom)
  else
    Ok (fdiv fzero fzero, fdiv fzero fzero).

(** A [float] operand of a mixed operation is widened to a [complex] with
    imaginary part [0.0]. *)
Definition to_complex (n : number) : F * F :=
  match n with
  | Float x => (x, fzero)
  | Complex re im => (re, im)
  end.

Definition of_pair (c : F * F) : number := Complex (fst c) (snd c).

Definition num_add (a b : number) : number :=
  match a, b with
  | Float x, Float y => Float (fadd x y)
  | _, _ => of_pair (c_sum (to_complex a) (to_complex b))
  end.

Definition num_sub (a b : number) : number :=
  match a, b with
  | Float x, Float y => Float (fsub x y)
  | _, _ => of_pair (c_diff (to_complex a) (to_complex b))
  end.

Definition num_mul (a b : number) : number :=
  match a, b with
  | Float x, Float y => Float (fmul x y)
  | _, _ => of_pair (c_prod (to_complex a) (to_complex b))
  end.

Definition num_truediv (a b : number) : result number :=
  match a, b with
  | Float x, Float y => rbind (float_truediv x y) (fun q => Ok (Float q))
  | _, _ => rbind (c_quot (to_complex a) (to_complex b)) (fun q => Ok (of_pair q))
  end.

(** The literal [1j]. *)
Definition imag_unit : number := Complex fzero fone.

(** *** [demo/package/geometry.py] *)

(** [def area_circle(radius): return math.pi * radius ** 2] *)
Definition area_circle (radius : F) : result F :=
  rbind (float_pow2 radius) (fun r2 => Ok (fmul math_pi r2)).

(** [def perimeter_rectangle(width, height): return 2 * (width + height)] *)
Definition perimeter_rectangle (width height : F) : F :=
  fmul (of_int 2) (fadd width height).

(** *** [demo/package/algebra.py] *)

(** [[
def solve_quadratic(a, b, c):
    discriminant = b ** 2 - 4 * a * c
    sqrt_disc = math.sqrt(discriminant) if discriminant >= 0 else math.sqrt(-discriminant) * 1j
    root1 = (-b + sqrt_disc) / (2 * a)
    root2 = (-b - sqrt_disc) / (2 * a)
    return root1, root2
]] *)
Definition solve_quadratic (a b c : F) : result (number * number) :=
  rbind (float_pow2 b) (fun b2 =>
  let discriminant := fsub b2 (fmul (fmul (of_int 4) a) c) in
  rbind (if fleb fzero discriminant
         then rbind (math_sqrt discriminant) (fun s => Ok (Float s))
         else rbind (math_sqrt (fneg discriminant)) (fun s => Ok (num_mul (Float s) imag_unit)))
    (fun sqrt_disc =>
  rbind (num_truediv (num_add (Float (fneg b)) sqrt_disc) (Float (fmul (of_int 2) a)))
    (fun root1 =>
  rbind (num_truediv (num_sub (Float (fneg b)) sqrt_disc) (Float (fmul (of_int 2) a)))
    (fun root2 =>
  Ok (root1, root2))))).

End Numeric.
Arguments number F : clear implicits.

(** The value of [a*z^2 + b*z + c] at a complex [z], in exact arithmetic. *)
Definition quadratic (a b c : R) (z : R * R) : R * R :=
  c_sum (F:=R) (c_sum (c_prod (a, 0%R) (c_prod z z)) (c_prod (b, 0%R) z)) (c, 0%R).

(** A binary64 value other than the two zeros. *)
Definition nonzero (x : spec_float) : bool :=
  match x with
  | S754_zero _ => false
  | _ => true
  end.


(** ** Syntax of the three modules

    The constructors follow the node names of Python's [ast] module.  A dotted
    module name is the list of its components.  Docstrings and annotations are
    left out: they only set [__doc__] and [__annotations__]. *)

Set Warnings "-register-all".

Abbreviation dotted := (list string) (only parsing).

Inductive operator := Add | Mult.

Inductive expr :=
| Name (id : string)
| Num (n : Z)
| Str (s : string)
| BinOp (left : expr) (op : operator) (right : expr)
| Call (func : expr) (args : list expr)
| Attribute (value : expr) (attr : string)
| JoinedStr (values : list expr)
| FormattedValue (value : expr)
| ListLit (elts : list expr).

Inductive stmt :=
| FunctionDef (name : string) (args : list string) (body : list stmt)
| ClassDef (name : string) (body : list stmt)
| Return (value : expr)
| Assign (target : expr) (value : expr)
| ExprStmt (value : expr)
| ImportFrom (module : dotted) (names : list string) (level : nat).

(** [demo/foo.py] *)
Definition foo_py : list stmt :=
  [ FunctionDef "_increment" ["y"]
      [ Return (BinOp (Name "y") Add (Num 1)) ];
    FunctionDef "foo" ["x"]
      [ Return (Call (Name "_increment") [Name "x"]) ] ].

(** [demo/bar.py] *)
Definition bar_py : list stmt :=
  [ ImportFrom ["foo"] ["foo"] 1;
    FunctionDef "double_foo" ["x"]
      [ Return (BinOp (Call (Name "foo") [Name "x"]) Mult (Num 2)) ];
    FunctionDef "triple_foo" ["x"]
      [ Return (BinOp (Call (Name "double_foo") [Name "x"]) Add
                      (Call (Name "foo") [Name "x"])) ];
    FunctionDef "_format_greeting" ["name"]
      [ Return (JoinedStr [Str "Hello, "; FormattedValue (Name "name"); Str "!"]) ];
    ClassDef "Greeter"
      [ FunctionDef "__init__" ["self"; "name"]
          [ Assign (Attribute (Name "self") "name") (Name "name") ];
        FunctionDef "greet" ["self"]
          [ Return (Call (Name "_format_greeting")
                         [Attribute (Name "self") "name"]) ] ] ].

(** [demo/__init__.py] *)
Definition init_py : list stmt :=
  [ ImportFrom ["foo"] ["foo"] 1;
    ImportFrom ["bar"] ["double_foo"; "Greeter"] 1;
    Assign (Name "__all__")
      (ListLit [Str "foo"; Str "double_foo"; Str "Greeter"; Str "package"]) ].

(** The files of the package that the interpreter can load: the flag says
    whether the module is a package (an [__init__.py]). *)
Definition demo_sources (name : dotted) : option (bool * list stmt) :=
  if decide (name = ["demo"]) then Some (true, init_py)
  else if decide (name = ["demo"; "foo"]) then Some (false, foo_py)
  else if decide (name = ["demo"; "bar"]) then Some (false, bar_py)
  else None.

(** ** Run-time objects

    Functions, classes, instances and modules are heap objects with an
    identity (their index in the heap); a name or attribute holding one holds
    a reference [VRef].  A function remembers the module whose dictionary is
    its [__globals__], a module remembers its [__package__]. *)

Abbreviation loc := nat (only parsing).

Inductive value :=
| VNone
| VInt (n : Z)
| VStr (s : string)
| VList (vs : list value)
| VRef (l : loc)
| VBound (self : value) (func : loc).

Inductive object :=
| OFunction (globals : loc) (qualname : string) (args : list string) (body : list stmt)
| OClass (qualname : string) (dict : gmap string value)
| OInstance (cls : loc) (dict : gmap string value)
| OModule (name : dotted) (package : dotted) (is_package : bool) (dict : gmap string value).

(** The interpreter state: the heap and [sys.modules]. *)
Record state := State { heap : list object; sys_modules : gmap dotted loc }.

Definition initial : state := State [] ∅.

(** A computation returns, raises, runs out of fuel, or leaves the fragment
    of Python that is modelled. *)
Inductive outcome (A : Type) :=
| Ret (a : A) (st : state)
| Exc (e : exn) (st : state)
| OutOfFuel
| Unsupported.
Arguments Ret {A} a st.
Arguments Exc {A} e st.
Arguments OutOfFuel {A}.
Arguments Unsupported {A}.

Definition M (A : Type) : Type := state -> outcome A.

Definition ret {A} (a : A) : M A := fun st => Ret a st.
Definition raise {A} (e : exn) : M A := fun st => Exc e st.
Definition unsupported {A} : M A := fun _ => Unsupported.
Definition out_of_fuel {A} : M A := fun _ => OutOfFuel.

Definition bind {A B} (m : M A) (k : A -> M B) : M B :=
  fun st =>
    match m st with
    | Ret a st' => k a st'
    | Exc e st' => Exc e st'
    | OutOfFuel => OutOfFuel
    | Unsupported => Unsupported
    end.

(** [on_exc m h]: run [h] on the way out when [m] raises. *)
Definition on_exc {A} (m : M A) (h : M unit) : M A :=
  fun st =>
    match m st with
    | Exc e st' =>
        match h st' with
        | Ret _ st'' => Exc e st''
        | Exc e' st'' => Exc e' st''
        | OutOfFuel => OutOfFuel
        | Unsupported => Unsupported
        end
    | r => r
    end.

Declare Scope py_scope.
Delimit Scope py_scope with py.
Notation "x <- c1 ;; c2" := (bind c1 (fun x => c2))
  (at level 20, c1 at level 99, c2 at level 200, right associativity) : py_scope.
Notation "' pat <- c1 ;; c2" := (bind c1 (fun x => match x with pat => c2 end))
  (at level 20, pat pattern, c1 at level 99, c2 at level 200, right associativity) : py_scope.
Notation "c1 ;; c2" := (bind c1 (fun _ => c2))
  (at level 100, c2 at level 200, right associativity) : py_scope.
Open Scope py_scope.

Definition alloc (o : object) : M loc :=
  fun st => Ret (length (heap st)) (State (heap st ++ [o]) (sys_modules st)).

Definition deref (l : loc) : M object :=
  fun st => match heap st !! l with Some o => Ret o st | None => Unsupported end.

Definition update (l : loc) (o : object) : M unit :=
  fun st => Ret tt (State (<[l := o]> (heap st)) (sys_modules st)).

Definition find_module (name : dotted) : M (option loc) :=
  fun st => Ret (sys_modules st !! name) st.

Definition register (name : dotted) (l : loc) : M unit :=
  fun st => Ret tt (State (heap st) (<[name := l]> (sys_modules st))).

Definition unregister (name : dotted) : M unit :=
  fun st => Ret tt (State (heap st) (delete name (sys_modules st))).

(** *** Names

    A frame knows the module it runs in, the prefix of the qualified names of
    the definitions it makes, and its scope.  At module level the local names
    are the module's dictionary itself.  A class body has a namespace of its
    own, which becomes the dictionary of the class.  In a function the local
    names are its parameters: the bodies of the three modules bind no other
    local name, and binding one (an assignment, a nested definition or an
    import inside a function) is outside the model. *)
Inductive scope :=
| ModuleScope
| ClassScope (ns : gmap string value)
| FunctionScope (ls : gmap string value).

Record frame := Frame {
  f_globals : loc;
  f_qualname : string;
  f_scope : scope }.

Definition load_global (g : loc) (x : string) : M value :=
  o <- deref g ;;
  match o with
  | OModule _ _ _ d =>
      match d !! x with Some v => ret v | None => raise NameError end
  | _ => unsupported
  end.

(** Local names first, then the globals (no builtin is read by the three
    modules). *)
Definition load_name (fr : frame) (x : string) : M value :=
  match f_scope fr with
  | ClassScope ls | FunctionScope ls =>
      match ls !! x with Some v => ret v | None => load_global (f_globals fr) x end
  | ModuleScope => load_global (f_globals fr) x
  end.

Definition store_name (fr : frame) (x : string) (v : value) : M frame :=
  match f_scope fr with
  | ClassScope ns => ret (Frame (f_globals fr) (f_qualname fr) (ClassScope (<[x := v]> ns)))
  | FunctionScope _ => unsupported
  | ModuleScope =>
      o <- deref (f_globals fr) ;;
      match o with
      | OModule n p k d => update (f_globals fr) (OModule n p k (<[x := v]> d)) ;; ret fr
      | _ => unsupported
      end
  end.

(** *** Attributes *)

(** [obj.attr]: an instance looks in its own dictionary, then in its class,
    where a function becomes a method bound to the instance. *)
Definition getattr (v : value) (a : string) : M value :=
  match v with
  | VRef l =>
      o <- deref l ;;
      match o with
      | OModule _ _ _ d | OClass _ d =>
          match d !! a with Some x => ret x | None => raise AttributeError end
      | OInstance c d =>
          match d !! a with
          | Some x => ret x
          | None =>
              co <- deref c ;;
              match co with
              | OClass _ cd =>
                  match cd !! a with
                  | Some (VRef f) =>
                      fo <- deref f ;;
                      match fo with
                      | OFunction _ _ _ _ => ret (VBound v f)
                      | _ => ret (VRef f)
                      end
                  | Some x => ret x
                  | None => raise AttributeError
                  end
              | _ => unsupported
              end
          end
      | OFunction _ _ _ _ => unsupported
      end
  | _ => unsupported
  end.

(** [obj.attr = x] *)
Definition setattr (v : value) (a : string) (x : value) : M unit :=
  match v with
  | VRef l =>
      o <- deref l ;;
      match o with
      | OInstance c d => update l (OInstance c (<[a := x]> d))
      | OModule n p k d => update l (OModule n p k (<[a := x]> d))
      | OClass q d => update l (OClass q (<[a := x]> d))
      | OFunction _ _ _ _ => unsupported
      end
  | _ => unsupported
  end.

(** *** Operators and formatting *)

Definition binop (op : operator) (a b : value) : M value :=
  match op, a, b with
  | Add, VInt x, VInt y => ret (VInt (x + y))
  | Add, VStr x, VStr y => ret (VStr (x +:+ y))
  | Add, VList x, VList y => ret (VList (x ++ y))
  | Mult, VInt x, VInt y => ret (VInt (x * y))
  | _, _, _ => unsupported
  end.

(** [format(v, "")], what a replacement field [{v}] of an f-string yields. *)
Definition format_value (v : value) : M string :=
  match v with
  | VStr s => ret s
  | VInt n => ret (pretty n)
  | VNone => ret "None"
  | _ => unsupported
  end.

Fixpoint join_strs (vs : list value) : M string :=
  match vs with
  | [] => ret ""
  | VStr s :: vs => r <- join_strs vs ;; ret (s +:+ r)
  | _ :: _ => unsupported
  end.

Definition bind_args (params : list string) (args : list value) : M (gmap string value) :=
  if decide (length params = length args)
  then ret (list_to_map (zip params args))
  else raise TypeError.

(** The absolute name of [from <level dots><module> import ...] inside a
    module whose [__package__] is [pkg]. *)
Definition resolve_name (pkg : dotted) (module : dotted) (level : nat) : M dotted :=
  match level with
  | O => ret module
  | S up =>
      if decide (up < length pkg)%nat
      then ret (take (length pkg - up) pkg ++ module)
      else raise ImportError
  end.

Definition package_of (g : loc) : M dotted :=
  o <- deref g ;;
  match o with
  | OModule _ p _ _ => ret p
  | _ => unsupported
  end.

(** [from m import x]: the attribute [x] of the module object. *)
Definition import_from (m : loc) (x : string) : M value :=
  o <- deref m ;;
  match o with
  | OModule _ _ k d =>
      match d !! x with
      | Some v => ret v
      | None => if k then unsupported else raise ImportError
      end
  | _ => unsupported
  end.

Fixpoint import_names (fr : frame) (m : loc) (names : list string) : M frame :=
  match names with
  | [] => ret fr
  | x :: names =>
      v <- import_from m x ;;
      fr' <- store_name fr x v ;;
      import_names fr' m names
  end.

Inductive signal := Next | Returned (v : value).

(** *** The interpreter

    Every recursive call spends one unit of fuel.  [sources] is the file
    system: the body of each module that can be imported. *)
Section Interpreter.

Variable sources : dotted -> option (bool * list stmt).

Fixpoint eval (fuel : nat) (fr : frame) (e : expr) {struct fuel} : M value :=
  match fuel with
  | O => out_of_fuel
  | S fuel =>
      match e with
      | Name x => load_name fr x
      | Num n => ret (VInt n)
      | Str s => ret (VStr s)
      | BinOp l op r =>
          a <- eval fuel fr l ;;
          b <- eval fuel fr r ;;
          binop op a b
      | Call f args =>
          fv <- eval fuel fr f ;;
          vs <- eval_list fuel fr args ;;
          call fuel fv vs
      | Attribute o a =>
          v <- eval fuel fr o ;;
          getattr v a
      | JoinedStr parts =>
          vs <- eval_list fuel fr parts ;;
          s <- join_strs vs ;;
          ret (VStr s)
      | FormattedValue o =>
          v <- eval fuel fr o ;;
          s <- format_value v ;;
          ret (VStr s)
      | ListLit es =>
          vs <- eval_list fuel fr es ;;
          ret (VList vs)
      end
  end

with eval_list (fuel : nat) (fr : frame) (es : list expr) {struct fuel} : M (list value) :=
  match fuel with
  | O => out_of_fuel
  | S fuel =>
      match es with
      | [] => ret []
      | e :: es =>
          v <- eval fuel fr e ;;
          vs <- eval_list fuel fr es ;;
          ret (v :: vs)
      end
  end

(** Calling a function runs its body in a fresh frame; calling a class makes
    an instance and runs [__init__] on it; calling a bound method passes the
    instance first. *)
with call (fuel : nat) (f : value) (args : list value) {struct fuel} : M value :=
  match fuel with
  | O => out_of_fuel
  | S fuel =>
      match f with
      | VRef l =>
          o <- deref l ;;
          match o with
          | OFunction g q params body =>
              ls <- bind_args params args ;;
              ' (_, sg) <- exec fuel (Frame g (q +:+ ".<locals>.") (FunctionScope ls)) body ;;
              match sg with
              | Returned v => ret v
              | Next => ret VNone
              end
          | OClass _ d =>
              inst <- alloc (OInstance l ∅) ;;
              match d !! "__init__" with
              | Some init =>
                  r <- call fuel init (VRef inst :: args) ;;
                  match r with
                  | VNone => ret (VRef inst)
                  | _ => raise TypeError
                  end
              | None =>
                  match args with
                  | [] => ret (VRef inst)
                  | _ :: _ => raise TypeError
                  end
              end
          | _ => raise TypeError
          end
      | VBound self f => call fuel (VRef f) (self :: args)
      | _ => raise TypeError
      end
  end

with exec (fuel : nat) (fr : frame) (body : list stmt) {struct fuel} : M (frame * signal) :=
  match fuel with
  | O => out_of_fuel
  | S fuel =>
      match body with
      | [] => ret (fr, Next)
      | s :: rest =>
          ' (fr', sg) <- exec_stmt fuel fr s ;;
          match sg with
          | Next => exec fuel fr' rest
          | Returned v => ret (fr', Returned v)
          end
      end
  end

with exec_stmt (fuel : nat) (fr : frame) (s : stmt) {struct fuel} : M (frame * signal) :=
  match fuel with
  | O => out_of_fuel
  | S fuel =>
      match s with
      | FunctionDef name params body =>
          l <- alloc (OFunction (f_globals fr) (f_qualname fr +:+ name) params body) ;;
          fr' <- store_name fr name (VRef l) ;;
          ret (fr', Next)
      | ClassDef name body =>
          ' (cfr, sg) <- exec fuel
               (Frame (f_globals fr) (f_qualname fr +:+ name +:+ ".") (ClassScope ∅)) body ;;
          match sg, f_scope cfr with
          | Next, ClassScope d =>
              l <- alloc (OClass (f_qualname fr +:+ name) d) ;;
              fr' <- store_name fr name (VRef l) ;;
              ret (fr', Next)
          | _, _ => unsupported
          end
      | Return e =>
          match f_scope fr with
          | FunctionScope _ =>
              v <- eval fuel fr e ;;
              ret (fr, Returned v)
          | _ => unsupported
          end
      | Assign (Name x) e =>
          v <- eval fuel fr e ;;
          fr' <- store_name fr x v ;;
          ret (fr', Next)
      | Assign (Attribute o a) e =>
          v <- eval fuel fr e ;;
          ov <- eval fuel fr o ;;
          setattr ov a v ;;
          ret (fr, Next)
      | Assign _ _ => unsupported
      | ExprStmt e =>
          eval fuel fr e ;;
          ret (fr, Next)
      | ImportFrom module names level =>
          pkg <- package_of (f_globals fr) ;;
          abs <- resolve_name pkg module level ;;
          m <- import_module fuel abs ;;
          fr' <- import_names fr m names ;;
          ret (fr', Next)
      end
  end

(** [importlib]: a module already in [sys.modules] is returned as it is;
    otherwise its parent package is imported first, the module object is
    created and registered, its body is run, and it is bound as an attribute
    of the parent. *)
with import_module (fuel : nat) (name : dotted) {struct fuel} : M loc :=
  match fuel with
  | O => out_of_fuel
  | S fuel =>
      found <- find_module name ;;
      match found with
      | Some l => ret l
      | None =>
          parent <- match name with
                    | [] | [_] => ret None
                    | _ => pl <- import_module fuel (removelast name) ;; ret (Some pl)
                    end ;;
          found <- find_module name ;;
          match found with
          | Some l => ret l
          | None =>
              match sources name with
              | None => raise ModuleNotFoundError
              | Some (is_pkg, body) =>
                  l <- alloc (OModule name (if is_pkg then name else removelast name) is_pkg ∅) ;;
                  register name l ;;
                  on_exc (exec fuel (Frame l "" ModuleScope) body) (unregister name) ;;
                  match parent with
                  | Some pl => setattr (VRef pl) (List.last name "") (VRef l)
                  | None => ret tt
                  end ;;
                  ret l
              end
          end
      end
  end.

End Interpreter.

(** ** Running the package *)

(** [import demo] in a fresh interpreter. *)
Definition import_demo (fuel : nat) : outcome loc :=
  import_module demo_sources fuel ["demo"] initial.

(** The state once [import demo] has returned. *)
Definition loaded : state :=
  match import_demo 40 with
  | Ret _ st => st
  | _ => initial
  end.

(** The value bound to the global name [x] of module [m]. *)
Definition lookup_global (st : state) (m : dotted) (x : string) : option value :=
  match sys_modules st !! m with
  | Some l =>
      match heap st !! l with
      | Some (OModule _ _ _ d) => d !! x
      | _ => None
      end
  | None => None
  end.

(** [m.f(args)] *)
Definition call_global (fuel : nat) (m : dotted) (f : string) (args : list value) : M value :=
  found <- find_module m ;;
  match found with
  | Some l =>
      fv <- getattr (VRef l) f ;;
      call demo_sources fuel fv args
  | None => raise ModuleNotFoundError
  end.

(** [obj.meth(args)] *)
Definition call_method (fuel : nat) (obj : value) (meth : string) (args : list value) : M value :=
  m <- getattr obj meth ;;
  call demo_sources fuel m args.

(** A state in which the package is loaded: the objects made by
    [import demo] are in place, ahead of whatever has been made since, and
    its modules are in [sys.modules]. *)
Definition installed (st : state) : Prop :=
  heap loaded `prefix_of` heap st /\ sys_modules loaded ⊆ sys_modules st.

(** The class object [Greeter], and the instance that [Greeter(n)] makes. *)
Definition greeter_class : nat := 10.

Definition greeter (n : string) : object :=
  OInstance greeter_class {[ "name" := VStr n ]}.

(** ** Call sites and call edges

    A call site is one call expression together with the definition whose
    body it occurs in: the qualified name of the innermost enclosing function
    or method, or [<module>] for code that runs at import time. *)

Fixpoint call_exprs (e : expr) : list expr :=
  match e with
  | Name _ | Num _ | Str _ => []
  | BinOp l _ r => call_exprs l ++ call_exprs r
  | Call f args => e :: call_exprs f ++ flat_map call_exprs args
  | Attribute o _ => call_exprs o
  | JoinedStr vs => flat_map call_exprs vs
  | FormattedValue o => call_exprs o
  | ListLit es => flat_map call_exprs es
  end.

Record call_site := CallSite { cs_enclosing : string; cs_call : expr }.

Fixpoint stmt_call_sites (prefix enclosing : string) (s : stmt) : list call_site :=
  match s with
  | FunctionDef name _ body =>
      flat_map (stmt_call_sites (prefix +:+ name +:+ ".<locals>.") (prefix +:+ name)) body
  | ClassDef name body =>
      flat_map (stmt_call_sites (prefix +:+ name +:+ ".") enclosing) body
  | Return e | ExprStmt e => map (CallSite enclosing) (call_exprs e)
  | Assign t e => map (CallSite enclosing) (call_exprs t ++ call_exprs e)
  | ImportFrom _ _ _ => []
  end.

Definition call_sites (body : list stmt) : list call_site :=
  flat_map (stmt_call_sites "" "<module>") body.

(** The call sites whose enclosing definition is [f]. *)
Definition call_sites_in (f : string) (body : list stmt) : list expr :=
  map cs_call (List.filter (fun cs => bool_decide (cs_enclosing cs = f)) (call_sites body)).

(** The call sites that call the plain name [x]. *)
Definition call_sites_of (x : string) (body : list stmt) : list call_site :=
  List.filter (fun cs => match cs_call cs with
                         | Call (Name y) _ => bool_decide (y = x)
                         | _ => false
                         end) (call_sites body).

(** A symbol: the module and the qualified name of a function. *)
Abbreviation symbol := (list string * string)%type (only parsing).

Definition symbol_of (st : state) (v : value) : option symbol :=
  match v with
  | VRef l =>
      match heap st !! l with
      | Some (OFunction g q _ _) =>
          match heap st !! g with
          | Some (OModule n _ _ _) => Some (n, q)
          | _ => None
          end
      | _ => None
      end
  | _ => None
  end.

(** A call of a plain name is resolved through the globals of the module
    that holds the call (none of the callees below is a local name). *)
Definition resolve_callee (st : state) (m : dotted) (e : expr) : option symbol :=
  match e with
  | Call (Name x) _ =>
      match lookup_global st m x with
      | Some v => symbol_of st v
      | None => None
      end
  | _ => None
  end.

(** The call edges of module [m]: caller and resolved callee of every call
    site ([None] for an unresolved callee). *)
Definition call_edges (st : state) (m : dotted) (body : list stmt) : list (symbol * option symbol) :=
  map (fun cs => ((m, cs_enclosing cs), resolve_callee st m (cs_call cs))) (call_sites body).

(** The function objects on the heap that were made by a [def] of
    qualified name [q]. *)
Definition functions_named (st : state) (q : string) : list object :=
  List.filter (fun o => match o with
                        | OFunction _ q' _ _ => bool_decide (q' = q)
                        | _ => false
                        end) (heap st).

(** ** Further notions

    What the properties of the last part of this file are stated with. *)

(** A double that is neither a NaN nor an infinity. *)
Definition is_finite (x : float) : bool :=
  negb (PrimFloat.is_nan x) && negb (PrimFloat.is_infinity x).

(** The values on which [x ** 2] is answered by [float_pow] itself, without
    a call of the C library: a NaN, an infinity, a zero, and [1] and [-1]. *)
Definition answered_directly (x : float) : bool :=
  PrimFloat.is_nan x || PrimFloat.is_infinity x || PrimFloat.eqb x 0
  || PrimFloat.eqb (PrimFloat.abs x) 1.

Definition SFis_infinity (x : spec_float) : bool :=
  match x with
  | S754_infinity _ => true
  | _ => false
  end.

(** Whether a number is a [float] (and not a [complex]). *)
Definition is_float {F : Type} (n : number F) : bool :=
  match n with
  | Float _ => true
  | Complex _ _ => false
  end.

(** The dictionary of a module. *)
Definition module_dict (st : state) (m : list string) : option (gmap string value) :=
  match sys_modules st !! m with
  | Some l =>
      match heap st !! l with
      | Some (OModule _ _ _ d) => Some d
      | _ => None
      end
  | None => None
  end.

(** The call edges of the three modules, once the package is loaded. *)
Definition package_call_edges : list ((list string * string) * option (list string * string)) :=
  call_edges loaded ["demo"; "foo"] foo_py
  ++ call_edges loaded ["demo"; "bar"] bar_py
  ++ call_edges loaded ["demo"] init_py.

(** The length of the longest chain of calls that starts in a function. *)
Definition call_depth (s : list string * string) : nat :=
  if decide (s = (["demo"; "bar"], "triple_foo")) then 3
  else if decide (s = (["demo"; "bar"], "double_foo")) then 2
  else if decide (s = (["demo"; "foo"], "foo")) then 1
  else if decide (s = (["demo"; "bar"], "Greeter.greet")) then 1
  else 0.

(** * Properties *)

(** ** The interpreter on the package *)

(** [import demo] returns, given enough fuel, and leaves the state
    [loaded]; the package object is the first object made. *)
Lemma import_demo_returns (k : nat) : import_demo (40 + k) = Ret 0%nat loaded.
Proof. vm_compute. reflexivity. Qed.

(** Too little fuel is reported as such, never as a result. *)
Lemma import_demo_needs_fuel : import_demo 10 = OutOfFuel.
Proof. vm_compute. reflexivity. Qed.

(** The interpreter agrees with the shallow embedding on every function of
    [foo.py] and [bar.py]. *)
Lemma run__increment (y : Z) (k : nat) :
  call_global (20 + k) ["demo"; "foo"] "_increment" [VInt y] loaded
  = Ret (VInt (demo_foo._increment y)) loaded.
Proof. vm_compute. reflexivity. Qed.

Lemma run_foo (x : Z) (k : nat) :
  call_global (20 + k) ["demo"; "foo"] "foo" [VInt x] loaded
  = Ret (VInt (demo_foo.foo x)) loaded.
Proof. vm_compute. reflexivity. Qed.

Lemma run_double_foo (x : Z) (k : nat) :
  call_global (20 + k) ["demo"; "bar"] "double_foo" [VInt x] loaded
  = Ret (VInt (demo_bar.double_foo x)) loaded.
Proof. vm_compute. reflexivity. Qed.

Lemma run_triple_foo (x : Z) (k : nat) :
  call_global (20 + k) ["demo"; "bar"] "triple_foo" [VInt x] loaded
  = Ret (VInt (demo_bar.triple_foo x)) loaded.
Proof. vm_compute. reflexivity. Qed.

Lemma run__format_greeting (n : string) (k : nat) :
  call_global (20 + k) ["demo"; "bar"] "_format_greeting" [VStr n] loaded
  = Ret (VStr (demo_bar._format_greeting n)) loaded.
Proof. vm_compute. reflexivity. Qed.

(** ** [foo.py] *)

(** C1: [_increment y] is [y + 1] and [foo x] is [_increment x], hence
    [foo x = x + 1], for all integers; running the two definitions of
    [foo.py] gives the same. *)
Theorem foo_increments :
  (forall y : Z, demo_foo._increment y = y + 1) /\
  (forall x : Z, demo_foo.foo x = demo_foo._increment x) /\
  (forall x : Z, demo_foo.foo x = x + 1) /\
  (forall (x : Z) (k : nat),
     call_global (20 + k) ["demo"; "foo"] "_increment" [VInt x] loaded
     = Ret (VInt (x + 1)) loaded) /\
  (forall (x : Z) (k : nat),
     call_global (20 + k) ["demo"; "foo"] "foo" [VInt x] loaded
     = Ret (VInt (x + 1)) loaded).
Proof.
  split; [reflexivity|].
  split; [reflexivity|].
  split; [reflexivity|].
  split; intros x k.
  - apply run__increment.
  - apply run_foo.
Qed.

(** ** [bar.py] *)

Lemma double_foo_eq (x : Z) : demo_bar.double_foo x = 2 * (x + 1).
Proof. unfold demo_bar.double_foo, demo_bar.foo, demo_foo.foo, demo_foo._increment. lia. Qed.

Lemma triple_foo_eq (x : Z) : demo_bar.triple_foo x = 3 * (x + 1).
Proof. unfold demo_bar.triple_foo. rewrite double_foo_eq. unfold demo_bar.foo, demo_foo.foo, demo_foo._increment. lia. Qed.

(** C2: [double_foo x] is [foo x * 2], that is [2 * (x + 1)]; the example of
    the docstring, [double_foo(3) = 8], holds; the interpreter returns the
    same value. *)
Theorem double_foo_doubles :
  (forall x : Z, demo_bar.double_foo x = demo_foo.foo x * 2) /\
  (forall x : Z, demo_bar.double_foo x = 2 * (x + 1)) /\
  demo_bar.double_foo 3 = 8 /\
  (forall (x : Z) (k : nat),
     call_global (20 + k) ["demo"; "bar"] "double_foo" [VInt x] loaded
     = Ret (VInt (2 * (x + 1))) loaded).
Proof.
  split; [reflexivity|].
  split; [apply double_foo_eq|].
  split; [reflexivity|].
  intros x k. rewrite run_double_foo. now rewrite double_foo_eq.
Qed.

(** C3: [triple_foo x] is [double_foo x + foo x], that is [3 * (x + 1)]; its
    body holds exactly two call expressions, [double_foo(x)] and [foo(x)];
    and the resolved call edges form the chain
    [triple_foo -> double_foo -> foo -> _increment]. *)
Theorem triple_foo_calls :
  (forall x : Z, demo_bar.triple_foo x = demo_bar.double_foo x + demo_foo.foo x) /\
  (forall x : Z, demo_bar.triple_foo x = 3 * (x + 1)) /\
  (forall (x : Z) (k : nat),
     call_global (20 + k) ["demo"; "bar"] "triple_foo" [VInt x] loaded
     = Ret (VInt (3 * (x + 1))) loaded) /\
  call_sites_in "triple_foo" bar_py
  = [Call (Name "double_foo") [Name "x"]; Call (Name "foo") [Name "x"]] /\
  ((["demo"; "bar"], "triple_foo"), Some (["demo"; "bar"], "double_foo"))
    ∈ call_edges loaded ["demo"; "bar"] bar_py /\
  ((["demo"; "bar"], "double_foo"), Some (["demo"; "foo"], "foo"))
    ∈ call_edges loaded ["demo"; "bar"] bar_py /\
  ((["demo"; "foo"], "foo"), Some (["demo"; "foo"], "_increment"))
    ∈ call_edges loaded ["demo"; "foo"] foo_py.
Proof.
  split; [reflexivity|].
  split; [apply triple_foo_eq|].
  split; [intros x k; rewrite run_triple_foo; now rewrite triple_foo_eq|].
  split; [vm_compute; reflexivity|].
  repeat split; apply list_elem_of_In; vm_compute; tauto.
Qed.

(** C4: [Greeter(name).greet()] returns [_format_greeting(name)], the string
    ["Hello, " ++ name ++ "!"]; the only call of [_format_greeting] in
    [bar.py] is the one whose enclosing definition is the method
    [Greeter.greet], and no call at all sits at module scope. *)
Theorem greet_calls_helper :
  (forall n : string,
     demo_bar.greet (demo_bar.__init__ n) = demo_bar._format_greeting n) /\
  (forall n : string, demo_bar._format_greeting n = "Hello, " +:+ n +:+ "!") /\
  (forall (n : string) (k : nat), exists (g : value) (st : state),
     call_global (20 + k) ["demo"; "bar"] "Greeter" [VStr n] loaded = Ret g st /\
     call_method (20 + k) g "greet" [] st = Ret (VStr ("Hello, " +:+ n +:+ "!")) st) /\
  call_sites_of "_format_greeting" bar_py
  = [CallSite "Greeter.greet"
       (Call (Name "_format_greeting") [Attribute (Name "self") "name"])] /\
  call_sites_in "<module>" bar_py = [].
Proof.
  split; [reflexivity|].
  split; [reflexivity|].
  split.
  { intros n k. eexists _, _. split; [vm_compute; reflexivity|].
    vm_compute. reflexivity. }
  split; vm_compute; reflexivity.
Qed.

(** ** [__init__.py] *)

(** C5: the names [foo], [double_foo] and [Greeter] of the package are listed
    in [__all__] and are bound to the very objects that [foo.py] and [bar.py]
    define: the same reference, whose object is the function made by the
    [def] of the original module, of which the heap holds one copy only;
    calling through the re-export is calling the original [foo]. *)
Theorem reexports_are_originals :
  demo_init.foo = demo_foo.foo /\
  demo_init.double_foo = demo_bar.double_foo /\
  demo_init.Greeter = demo_bar.__init__ /\
  lookup_global loaded ["demo"] "__all__"
  = Some (VList (map VStr demo_init.__all__)) /\
  "foo" ∈ demo_init.__all__ /\
  "double_foo" ∈ demo_init.__all__ /\
  "Greeter" ∈ demo_init.__all__ /\
  (exists l : loc,
     lookup_global loaded ["demo"] "foo" = Some (VRef l) /\
     lookup_global loaded ["demo"; "bar"] "foo" = Some (VRef l) /\
     lookup_global loaded ["demo"; "foo"] "foo" = Some (VRef l) /\
     symbol_of loaded (VRef l) = Some (["demo"; "foo"], "foo") /\
     functions_named loaded "foo"
     = [OFunction 1%nat "foo" ["x"] [Return (Call (Name "_increment") [Name "x"])]]) /\
  (exists l : loc,
     lookup_global loaded ["demo"] "double_foo" = Some (VRef l) /\
     lookup_global loaded ["demo"; "bar"] "double_foo" = Some (VRef l) /\
     symbol_of loaded (VRef l) = Some (["demo"; "bar"], "double_foo") /\
     length (functions_named loaded "double_foo") = 1%nat) /\
  (exists l : loc,
     lookup_global loaded ["demo"] "Greeter" = Some (VRef l) /\
     lookup_global loaded ["demo"; "bar"] "Greeter" = Some (VRef l) /\
     exists d, heap loaded !! l = Some (OClass "Greeter" d)) /\
  (forall (x : Z) (k : nat),
     call_global (20 + k) ["demo"] "foo" [VInt x] loaded
     = Ret (VInt (demo_foo.foo x)) loaded /\
     call_global (20 + k) ["demo"] "foo" [VInt x] loaded
     = call_global (20 + k) ["demo"; "foo"] "foo" [VInt x] loaded).
Proof.
  split; [reflexivity|].
  split; [reflexivity|].
  split; [reflexivity|].
  split; [vm_compute; reflexivity|].
  split; [apply list_elem_of_In; vm_compute; tauto|].
  split; [apply list_elem_of_In; vm_compute; tauto|].
  split; [apply list_elem_of_In; vm_compute; tauto|].
  split.
  { exists 3%nat. repeat split; vm_compute; reflexivity. }
  split.
  { exists 5%nat. repeat split; vm_compute; reflexivity. }
  split.
  { exists 10%nat. split; [|split]; [vm_compute; reflexivity ..|].
    eexists. vm_compute. reflexivity. }
  intros x k. rewrite run_foo. split; vm_compute; reflexivity.
Qed.

(** ** Symbolic execution

    In a state that is only partly known the interpreter is run step by
    step: one unfolding of a recursive call, one monadic step, one lookup at
    a time. *)

Section Unfold.

Variable src : dotted -> option (bool * list stmt).

Lemma call_S (fuel : nat) (f : value) (args : list value) :
  call src (S fuel) f args
  = ltac:(let t := eval cbn [call] in (call src (S fuel) f args) in exact t).
Proof. reflexivity. Qed.

Lemma eval_S (fuel : nat) (fr : frame) (e : expr) :
  eval src (S fuel) fr e
  = ltac:(let t := eval cbn [eval] in (eval src (S fuel) fr e) in exact t).
Proof. reflexivity. Qed.

Lemma eval_list_S (fuel : nat) (fr : frame) (es : list expr) :
  eval_list src (S fuel) fr es
  = ltac:(let t := eval cbn [eval_list] in (eval_list src (S fuel) fr es) in exact t).
Proof. reflexivity. Qed.

Lemma exec_S (fuel : nat) (fr : frame) (body : list stmt) :
  exec src (S fuel) fr body
  = ltac:(let t := eval cbn [exec] in (exec src (S fuel) fr body) in exact t).
Proof. reflexivity. Qed.

Lemma exec_stmt_S (fuel : nat) (fr : frame) (s : stmt) :
  exec_stmt src (S fuel) fr s
  = ltac:(let t := eval cbn [exec_stmt] in (exec_stmt src (S fuel) fr s) in exact t).
Proof. reflexivity. Qed.

End Unfold.

Lemma bind_step {A B} (m : M A) (k : A -> M B) (st st' : state) (a : A) (r : outcome B) :
  m st = Ret a st' -> k a st' = r -> bind m k st = r.
Proof. intros Hm Hk. unfold bind. rewrite Hm. exact Hk. Qed.

(** A new object gets the next free location; it is found there, and
    updating it replaces it. *)
Lemma alloc_eq (o : object) (st : state) (g : nat) :
  g = length (heap st) -> alloc o st = Ret g (State (heap st ++ [o]) (sys_modules st)).
Proof. intros ->. reflexivity. Qed.

Lemma lookup_last (h : list object) (o : object) (g : nat) :
  g = length h -> (h ++ [o]) !! g = Some o.
Proof. intros ->. now apply list_lookup_middle. Qed.

Lemma insert_last (h : list object) (o o' : object) (g : nat) :
  g = length h -> <[g := o']> (h ++ [o]) = h ++ [o'].
Proof. intros ->. rewrite insert_app_r_alt by lia. now rewrite Nat.sub_diag. Qed.

(** Replaces one lookup of the goal by its value: by a hypothesis, or by
    computation when the container is known far enough. *)
Ltac solve_lookup :=
  match goal with
  | H : ?l !! ?i = Some _ |- context [?l !! ?i] => rewrite H
  | |- context [@lookup ?K ?A ?T ?I ?k ?m] =>
      let r := eval vm_compute in (@lookup K A T I k m) in
      lazymatch r with Some _ => idtac | None => idtac end;
      let E := fresh in
      assert (E : @lookup K A T I k m = r) by (vm_compute; reflexivity);
      rewrite E; clear E
  | |- context [decide ?P] =>
      let r := eval vm_compute in (decide P) in
      let E := fresh in
      assert (E : decide P = r) by (vm_compute; reflexivity);
      rewrite E; clear E
  end.

(** Runs the computation on the left of the goal until it has returned. *)
Ltac run :=
  cbv beta iota;
  cbn [f_scope f_globals f_qualname heap sys_modules join_strs];
  lazymatch goal with
  | |- Ret _ _ = _ => try reflexivity
  | |- bind _ _ _ = _ => eapply bind_step; [ run | run ]
  | |- ret _ _ = _ => unfold ret; run
  | |- deref _ _ = _ => unfold deref; run
  | |- alloc ?o ?st = _ =>
      match goal with Eg : ?g = length _ |- _ => rewrite (alloc_eq o st g Eg) end; run
  | |- update _ _ _ = _ =>
      unfold update; cbn [heap sys_modules];
      try match goal with Eg : ?g = length _ |- _ => rewrite (insert_last _ _ _ g Eg) end;
      run
  | |- find_module _ _ = _ => unfold find_module; run
  | |- call _ (S _) _ _ _ = _ => rewrite call_S; run
  | |- eval _ (S _) _ _ _ = _ => rewrite eval_S; run
  | |- eval_list _ (S _) _ _ _ = _ => rewrite eval_list_S; run
  | |- exec _ (S _) _ _ _ = _ => rewrite exec_S; run
  | |- exec_stmt _ (S _) _ _ _ = _ => rewrite exec_stmt_S; run
  | |- getattr _ _ _ = _ => unfold getattr; run
  | |- setattr _ _ _ _ = _ => unfold setattr; run
  | |- load_name _ _ _ = _ => unfold load_name; run
  | |- load_global _ _ _ = _ => unfold load_global; run
  | |- store_name _ _ _ _ = _ => unfold store_name; run
  | |- bind_args _ _ _ = _ => unfold bind_args; run
  | |- binop _ _ _ _ = _ => unfold binop; run
  | |- format_value _ _ = _ => unfold format_value; run
  | |- call_method _ _ _ _ _ = _ => unfold call_method; run
  | |- call_global _ _ _ _ _ = _ => unfold call_global; run
  | |- _ => solve_lookup; run
  end.

(** ** The [Greeter] objects *)

Lemma installed_loaded : installed loaded.
Proof. split; [exists []; now rewrite app_nil_r|reflexivity]. Qed.

Lemma installed_alloc (st : state) (o : object) :
  installed st -> installed (State (heap st ++ [o]) (sys_modules st)).
Proof.
  intros [[extra E] Hms]. split; [|exact Hms].
  exists (extra ++ [o]). cbn [heap]. rewrite E. now rewrite app_assoc.
Qed.

Lemma greeter_class_is_Greeter :
  lookup_global loaded ["demo"; "bar"] "Greeter" = Some (VRef greeter_class).
Proof. vm_compute. reflexivity. Qed.

(** [Greeter(n)] makes one object, [greeter n], at the next free location,
    and changes nothing else. *)
Lemma Greeter_constructs (st : state) (n : string) (k : nat) :
  installed st ->
  call_global (20 + k) ["demo"; "bar"] "Greeter" [VStr n] st
  = Ret (VRef (length (heap st))) (State (heap st ++ [greeter n]) (sys_modules st)).
Proof.
  destruct st as [h ms]. intros [[extra E] Hms]. cbn [heap sys_modules] in *. subst h.
  assert (Hbar : ms !! ["demo"; "bar"] = Some 4%nat).
  { eapply lookup_weaken; [|exact Hms]. vm_compute. reflexivity. }
  remember (length (heap loaded ++ extra)) as g eqn:Eg.
  pose proof (lookup_last _ (OInstance 10%nat ∅) g Eg) as Hg.
  unfold greeter, greeter_class. cbn [Nat.add]. run.
Qed.

(** [g.greet()] on a [Greeter] object returns the greeting and leaves the
    state as it found it. *)
Lemma greet_frame (st : state) (g : nat) (n : string) (k : nat) :
  installed st ->
  heap st !! g = Some (greeter n) ->
  call_method (20 + k) (VRef g) "greet" [] st
  = Ret (VStr (demo_bar._format_greeting n)) st.
Proof.
  destruct st as [h ms]. intros [[extra E] _] Hg. cbn [heap sys_modules] in *. subst h.
  unfold greeter, greeter_class in Hg. cbn [Nat.add]. run.
Qed.

Lemma greeter_name (st : state) (g : nat) (n : string) :
  heap st !! g = Some (greeter n) ->
  getattr (VRef g) "name" st = Ret (VStr n) st.
Proof.
  destruct st as [h ms]. intros Hg. cbn [heap] in Hg.
  unfold greeter, greeter_class in Hg. run.
Qed.

(** C10: let [g = Greeter(n)] be constructed in any state in which the
    package is loaded.  In every state in which [g] is still that object,
    [g.greet()] returns the greeting and leaves the state exactly as it was:
    [g.name] is still [n], no module dictionary and no other object has
    changed, and a second call returns the same string. *)
Theorem greet_is_pure (st : state) (n : string) (k : nat) :
  installed st ->
  exists (g : nat) (st1 : state),
    call_global (20 + k) ["demo"; "bar"] "Greeter" [VStr n] st = Ret (VRef g) st1 /\
    installed st1 /\
    heap st1 !! g = Some (greeter n) /\
    forall st2 : state,
      installed st2 ->
      heap st2 !! g = Some (greeter n) ->
      call_method (20 + k) (VRef g) "greet" [] st2
      = Ret (VStr (demo_bar._format_greeting n)) st2 /\
      (_ <- call_method (20 + k) (VRef g) "greet" [] ;; getattr (VRef g) "name") st2
      = Ret (VStr n) st2 /\
      (_ <- call_method (20 + k) (VRef g) "greet" [] ;;
       call_method (20 + k) (VRef g) "greet" []) st2
      = Ret (VStr (demo_bar._format_greeting n)) st2.
Proof.
  intros Hst.
  exists (length (heap st)), (State (heap st ++ [greeter n]) (sys_modules st)).
  split; [apply Greeter_constructs; exact Hst|].
  split; [apply installed_alloc; exact Hst|].
  split; [cbn [heap]; now apply lookup_last|].
  intros st2 Hst2 Hg.
  pose proof (greet_frame st2 _ n k Hst2 Hg) as Hgreet.
  split; [exact Hgreet|].
  split.
  - eapply bind_step; [exact Hgreet|]. now apply greeter_name.
  - eapply bind_step; [exact Hgreet|exact Hgreet].
Qed.

(** [Greeter("Shadow")], as in [run_demo.py], right after the import. *)
Lemma greet_is_pure_witness :
  installed loaded /\
  exists (g : nat) (st1 : state),
    call_global 20 ["demo"; "bar"] "Greeter" [VStr "Shadow"] loaded = Ret (VRef g) st1 /\
    call_method 20 (VRef g) "greet" [] st1 = Ret (VStr "Hello, Shadow!") st1.
Proof.
  split; [exact installed_loaded|].
  destruct (greet_is_pure loaded "Shadow" 0 installed_loaded)
    as (g & st1 & Hc & Hi & Hg & Hframe).
  exists g, st1. split; [exact Hc|].
  exact (proj1 (Hframe st1 Hi Hg)).
Defined.

(** ** Exact arithmetic *)

Section ExactFacts.

Local Open Scope R_scope.

Lemma exact_pow2 (x : R) : float_pow2 x = Ok (x * x).
Proof.
  unfold float_pow2, fzero, fone; simpl.
  destruct (Req_dec_T x 0) as [->|Hx].
  - f_equal. lra.
  - destruct (Rlt_dec x 0); destruct (Req_dec_T _ 1) as [E|E];
      f_equal; try rewrite E; nra.
Qed.

Lemma exact_truediv (x y : R) : y <> 0 -> float_truediv x y = Ok (x / y).
Proof.
  intros Hy. unfold float_truediv, fzero; simpl.
  destruct (Req_dec_T y 0); [contradiction|reflexivity].
Qed.

Lemma exact_truediv_zero (x y : R) : y = 0 -> float_truediv x y = Raise ZeroDivisionError.
Proof.
  intros Hy. unfold float_truediv, fzero; simpl.
  destruct (Req_dec_T y 0); [reflexivity|contradiction].
Qed.

Lemma exact_sqrt (x : R) : 0 <= x -> math_sqrt x = Ok (R_sqrt.sqrt x).
Proof.
  intros Hx. unfold math_sqrt, fzero; simpl.
  destruct (Rlt_dec x 0); [lra|reflexivity].
Qed.

(** Division of a complex number by a real one that is not zero. *)
Lemma exact_c_quot (p q x : R) :
  x <> 0 -> c_quot (F:=R) (p, q) (x, 0) = Ok (p / x, q / x).
Proof.
  intros Hx. unfold c_quot, fzero; simpl.
  destruct (Rlt_dec 0 0); [lra|].
  destruct (Rlt_dec x 0).
  - destruct (Rle_dec 0 (- x)); [|lra]. destruct (Req_dec_T (- x) 0); [lra|].
    f_equal. f_equal; field; assumption.
  - destruct (Rle_dec 0 x); [|lra]. destruct (Req_dec_T x 0); [lra|].
    f_equal. f_equal; field; assumption.
Qed.

(** The result of [solve_quadratic] when the discriminant is not negative. *)
Lemma exact_solve_real (a b c : R) :
  a <> 0 -> 0 <= b * b - 4 * a * c ->
  solve_quadratic a b c
  = Ok (Float ((- b + R_sqrt.sqrt (b * b - 4 * a * c)) / (2 * a)),
        Float ((- b - R_sqrt.sqrt (b * b - 4 * a * c)) / (2 * a))).
Proof.
  intros Ha Hd. assert (H2a : 2 * a <> 0) by lra.
  unfold solve_quadratic. rewrite exact_pow2. cbn [rbind].
  change (of_int 4) with 4. change (of_int 2) with 2. change (@fzero R _) with 0.
  cbn [fsub fmul fleb fneg Exact].
  destruct (Rle_dec 0 (b * b - 4 * a * c)); [|contradiction].
  rewrite exact_sqrt by assumption. cbn [rbind].
  unfold num_truediv, num_add, num_sub. rewrite !exact_truediv by assumption.
  reflexivity.
Qed.

(** The result of [solve_quadratic] when the discriminant is negative. *)
Lemma exact_solve_complex (a b c : R) :
  a <> 0 -> b * b - 4 * a * c < 0 ->
  solve_quadratic a b c
  = Ok (Complex (- b / (2 * a)) (R_sqrt.sqrt (- (b * b - 4 * a * c)) / (2 * a)),
        Complex (- b / (2 * a)) (- R_sqrt.sqrt (- (b * b - 4 * a * c)) / (2 * a))).
Proof.
  intros Ha Hd. assert (H2a : 2 * a <> 0) by lra.
  unfold solve_quadratic. rewrite exact_pow2. cbn [rbind].
  change (of_int 4) with 4. change (of_int 2) with 2. change (@fzero R _) with 0.
  cbn [fsub fmul fleb fneg Exact].
  destruct (Rle_dec 0 (b * b - 4 * a * c)); [lra|].
  rewrite exact_sqrt by lra. cbn [rbind].
  unfold num_truediv, num_add, num_sub, num_mul, imag_unit, of_pair, to_complex,
    c_prod, c_sum, c_diff.
  change (@fzero R _) with 0. change (@fone R _) with 1.
  cbn [fst snd fadd fsub fmul Exact].
  rewrite !exact_c_quot by assumption. cbn [rbind fst snd].
  do 2 f_equal; f_equal; field; assumption.
Qed.

(** With [a = 0] the divisor [2 * a] is zero. *)
Lemma exact_solve_zero (b c : R) : solve_quadratic 0 b c = Raise ZeroDivisionError.
Proof.
  unfold solve_quadratic. rewrite exact_pow2. cbn [rbind].
  change (of_int 4) with 4. change (of_int 2) with 2. change (@fzero R _) with 0.
  cbn [fsub fmul fleb fneg Exact].
  destruct (Rle_dec 0 (b * b - 4 * 0 * c)) as [Hd|Hd]; [|nra].
  rewrite exact_sqrt by assumption. cbn [rbind].
  unfold num_truediv, num_add. rewrite exact_truediv_zero by lra. reflexivity.
Qed.

(** Both values are roots, whatever the sign of the discriminant. *)
Lemma real_root (a b c s : R) :
  a <> 0 -> s * s = b * b - 4 * a * c ->
  quadratic a b c ((- b + s) / (2 * a), 0) = (0, 0).
Proof.
  intros Ha Hs. unfold quadratic, c_sum, c_prod; cbn. f_equal; [|ring].
  field_simplify_eq; [|assumption]. nra.
Qed.

Lemma complex_root (a b c s : R) :
  a <> 0 -> s * s = - (b * b - 4 * a * c) ->
  quadratic a b c (- b / (2 * a), s / (2 * a)) = (0, 0).
Proof.
  intros Ha Hs. unfold quadratic, c_sum, c_prod; cbn. f_equal.
  - field_simplify_eq; [|assumption]. nra.
  - field_simplify_eq; [|assumption]. nra.
Qed.

End ExactFacts.

(** C6: in exact arithmetic and for [a <> 0], [solve_quadratic a b c]
    returns two roots of [a*z^2 + b*z + c]: the reals
    [(-b +- sqrt d) / (2a)] when the discriminant [d = b^2 - 4ac] is not
    negative, the complex pair [(-b +- i*sqrt (4ac - b^2)) / (2a)] when it
    is. *)
Theorem solve_quadratic_roots (a b c : R) :
  a <> 0%R ->
  exists r1 r2 : number R,
    solve_quadratic a b c = Ok (r1, r2) /\
    quadratic a b c (to_complex r1) = (0, 0)%R /\
    quadratic a b c (to_complex r2) = (0, 0)%R /\
    ((0 <= b ^ 2 - 4 * a * c)%R ->
       r1 = Float ((- b + R_sqrt.sqrt (b ^ 2 - 4 * a * c)) / (2 * a))%R /\
       r2 = Float ((- b - R_sqrt.sqrt (b ^ 2 - 4 * a * c)) / (2 * a))%R) /\
    ((b ^ 2 - 4 * a * c < 0)%R ->
       r1 = Complex (- b / (2 * a))%R (R_sqrt.sqrt (4 * a * c - b ^ 2) / (2 * a))%R /\
       r2 = Complex (- b / (2 * a))%R (- R_sqrt.sqrt (4 * a * c - b ^ 2) / (2 * a))%R).
Proof.
  intros Ha.
  replace (b ^ 2 - 4 * a * c)%R with (b * b - 4 * a * c)%R by ring.
  replace (4 * a * c - b ^ 2)%R with (- (b * b - 4 * a * c))%R by ring.
  destruct (Rle_dec 0 (b * b - 4 * a * c)) as [Hd|Hd].
  - rewrite exact_solve_real by assumption.
    pose proof (R_sqrt.sqrt_sqrt _ Hd) as Hs.
    eexists _, _. split; [reflexivity|].
    split; [apply real_root; assumption|].
    split.
    { replace ((- b - R_sqrt.sqrt (b * b - 4 * a * c)) / (2 * a))%R
        with ((- b + - R_sqrt.sqrt (b * b - 4 * a * c)) / (2 * a))%R by (field; assumption).
      apply real_root; [assumption|]. rewrite <- Hs at 3. ring. }
    split; [intros _; split; reflexivity|].
    intros Hneg. lra.
  - assert (Hneg : (b * b - 4 * a * c < 0)%R) by lra.
    assert (Hd' : (0 <= - (b * b - 4 * a * c))%R) by lra.
    rewrite exact_solve_complex by assumption.
    pose proof (R_sqrt.sqrt_sqrt _ Hd') as Hs.
    eexists _, _. split; [reflexivity|].
    split; [apply complex_root; assumption|].
    split; [apply complex_root; [assumption|]; rewrite <- Hs at 3; ring|].
    split; [intros Hpos; lra|].
    intros _. split; reflexivity.
Qed.

(** The call of [run_demo.py], [solve_quadratic(1, 0, -4)]. *)
Lemma solve_quadratic_roots_witness :
  exists r1 r2 : number R,
    solve_quadratic 1%R 0%R (-4)%R = Ok (r1, r2) /\
    quadratic 1 0 (-4) (to_complex r1) = (0, 0)%R /\
    quadratic 1 0 (-4) (to_complex r2) = (0, 0)%R.
Proof.
  destruct (solve_quadratic_roots 1 0 (-4))%R as (r1 & r2 & H1 & H2 & H3 & _).
  - lra.
  - exists r1, r2. split; [exact H1|]. split; [exact H2|exact H3].
Defined.

(** ** IEEE 754 binary64 *)

Section Binary64Facts.

Local Open Scope float_scope.

Lemma SFadd_comm (p e : Z) (x y : spec_float) : SFadd p e x y = SFadd p e y x.
Proof.
  destruct x as [sx|sx| |sx mx ex], y as [sy|sy| |sy my ey]; cbn; try reflexivity;
    try (destruct sx, sy; reflexivity).
  rewrite (Z.min_comm ey ex). f_equal. apply Z.add_comm.
Qed.

Lemma float_add_comm (x y : float) : x + y = y + x.
Proof. apply Prim2SF_inj. rewrite !add_spec. apply SFadd_comm. Qed.

(** The [int] literals of the two modules as doubles. *)
Lemma b64_literals :
  @fzero float _ = 0 /\ @fone float _ = 1 /\ of_int 2 = 2 /\ of_int 4 = 4.
Proof. repeat split. Qed.

(** A float that compares equal to zero is one of the two zeros. *)
Lemma eqb_zero_cases (a : float) : (a =? 0) = true -> a = 0 \/ a = -0.
Proof.
  rewrite FloatAxioms.eqb_spec. intros H.
  rewrite <- (SF2Prim_Prim2SF a).
  destruct (Prim2SF a) as [[|]| | |]; try discriminate H.
  - right. reflexivity.
  - left. reflexivity.
  - cbn in H. destruct s; discriminate.
  - destruct s; discriminate.
Qed.

Lemma Prim2SF_two : Prim2SF 2 = S754_finite false 4503599627370496 (-51).
Proof. reflexivity. Qed.

Lemma Prim2SF_zero : Prim2SF 0 = S754_zero false.
Proof. reflexivity. Qed.

Lemma SFeqb_zero (x : spec_float) : SFeqb x (S754_zero false) = negb (nonzero x).
Proof. destruct x as [s|s| |s m e]; try reflexivity; destruct s; reflexivity. Qed.

Lemma digits2_shift52 (m : positive) :
  Zdigits2 (Zpos (4503599627370496 * m)) = (Zpos (digits2_pos m) + 52)%Z.
Proof. cbv [PosDef.Pos.mul Pos.mul Zdigits2 digits2_pos]. fold (digits2_pos m). lia. Qed.

Lemma shr_52 (m : positive) (e : Z) :
  shr (shr_record_of_loc (Zpos (4503599627370496 * m)) loc_Exact) e 52
  = ({| shr_m := Zpos m; shr_r := false; shr_s := false |}, (e + 52)%Z).
Proof. reflexivity. Qed.

Lemma shr_51 (m : positive) (e : Z) :
  shr (shr_record_of_loc (Zpos (4503599627370496 * m)) loc_Exact) e 51
  = ({| shr_m := Zpos m~0; shr_r := false; shr_s := false |}, (e + 51)%Z).
Proof. reflexivity. Qed.

Lemma double_finite_nonzero (s : bool) (m : positive) (e : Z) :
  bounded prec emax m e = true ->
  nonzero (SFmul prec emax (S754_finite false 4503599627370496 (-51)) (S754_finite s m e)) = true.
Proof.
  unfold bounded, canonical_mantissa, fexp, emin, prec, emax.
  intros Hb. apply andb_prop in Hb as [Hc He].
  apply Z.eqb_eq in Hc. apply Z.leb_le in He.
  unfold SFmul, binary_round_aux, shr_fexp, fexp, emin.
  rewrite digits2_shift52.
  remember (Zpos (digits2_pos m)) as D eqn:ED.
  assert (HD : (0 < D)%Z) by lia.
  assert (Hcase : (D = 53 \/ (D < 53 /\ e = -1074))%Z) by lia.
  destruct Hcase as [HD53|[HDlt He']].
  - replace ((D + 52 + (-51 + e) - 53) `max` (3 - 1024 - 53) - (-51 + e))%Z with 52%Z by lia.
    rewrite shr_52.
    cbn [shr_m loc_of_shr_record round_nearest_even Zdigits2 shr_record_of_loc].
    rewrite <- ED.
    replace ((D + (-51 + e + 52) - 53) `max` (3 - 1024 - 53) - (-51 + e + 52))%Z with 0%Z by lia.
    cbn [shr shr_m]. destruct (_ <=? _)%Z; reflexivity.
  - replace ((D + 52 + (-51 + e) - 53) `max` (3 - 1024 - 53) - (-51 + e))%Z with 51%Z by lia.
    rewrite shr_51.
    cbn [shr_m loc_of_shr_record round_nearest_even Zdigits2 digits2_pos shr_record_of_loc].
    replace (Z.pos (PosDef.Pos.succ (digits2_pos m))) with (D + 1)%Z by lia.
    replace ((D + 1 + (-51 + e + 51) - 53) `max` (3 - 1024 - 53) - (-51 + e + 51))%Z with 0%Z by lia.
    cbn [shr shr_m]. destruct (_ <=? _)%Z; reflexivity.
Qed.

(** Doubling a float that is not zero never gives zero. *)
Lemma double_nonzero (a : float) : (a =? 0) = false -> (2 * a =? 0) = false.
Proof.
  rewrite !FloatAxioms.eqb_spec, mul_spec, Prim2SF_two, Prim2SF_zero, !SFeqb_zero.
  pose proof (Prim2SF_valid a) as Hv.
  destruct (Prim2SF a) as [s|s| |s m e]; try discriminate; intros _; try reflexivity.
  unfold SF64mul. rewrite double_finite_nonzero by exact Hv. reflexivity.
Qed.

Lemma leb_zero_not_ltb (d : float) : (0 <=? d) = true -> (d <? 0) = false.
Proof.
  rewrite leb_spec, ltb_spec, Prim2SF_zero.
  destruct (Prim2SF d) as [s|s| |s m e]; try reflexivity; destruct s; try reflexivity; discriminate.
Qed.

Lemma not_leb_zero_opp (d : float) : (0 <=? d) = false -> (- d <? 0) = false.
Proof.
  rewrite leb_spec, ltb_spec, opp_spec, Prim2SF_zero.
  destruct (Prim2SF d) as [s|s| |s m e]; try reflexivity; destruct s; try reflexivity; discriminate.
Qed.

Lemma abs_eqb_zero (x : float) : ((if x <? 0 then - x else x) =? 0) = (x =? 0).
Proof.
  destruct (x <? 0); [|reflexivity].
  rewrite !FloatAxioms.eqb_spec, opp_spec, Prim2SF_zero, !SFeqb_zero.
  destruct (Prim2SF x); reflexivity.
Qed.

Lemma b64_sqrt_guarded (d : float) :
  exists sd : number float,
    (if fleb fzero d
     then rbind (math_sqrt d) (fun s => Ok (Float s))
     else rbind (math_sqrt (fneg d)) (fun s => Ok (num_mul (Float s) imag_unit))) = Ok sd.
Proof.
  change (@fzero float _) with 0. cbn [fleb fneg Binary64].
  destruct (0 <=? d) eqn:Hd; unfold math_sqrt; change (@fzero float _) with 0; cbn [fltb Binary64].
  - rewrite leb_zero_not_ltb by assumption. eexists. reflexivity.
  - rewrite not_leb_zero_opp by assumption. eexists. reflexivity.
Qed.

Lemma b64_truediv_zero (x : number float) (z : float) :
  z = 0 \/ z = -0 -> num_truediv x (Float (fmul (of_int 2) z)) = Raise ZeroDivisionError.
Proof. intros [->| ->]; destruct x; reflexivity. Qed.

Lemma b64_c_quot_ok (p : float * float) (x : float) :
  (x =? 0) = false -> exists q, c_quot p (x, fzero) = Ok q.
Proof.
  intros Hx. unfold c_quot. cbn [fst snd]. change (@fzero float _) with 0.
  cbn [fltb fleb feqb fneg Binary64].
  change (if 0 <? 0 then - 0 else 0) with 0.
  rewrite abs_eqb_zero, Hx.
  destruct (0 <=? _); [eexists; reflexivity|].
  destruct (_ <=? 0); eexists; reflexivity.
Qed.

Lemma b64_truediv_ok (x : number float) (z : float) :
  (z =? 0) = false -> exists q, num_truediv x (Float z) = Ok q.
Proof.
  intros Hz. destruct x as [x|re im].
  - unfold num_truediv, float_truediv. change (@fzero float _) with 0. cbn [feqb Binary64].
    rewrite Hz. eexists. reflexivity.
  - unfold num_truediv. cbn [to_complex].
    destruct (b64_c_quot_ok (re, im) z Hz) as [q ->]. eexists. reflexivity.
Qed.

Lemma b64_pow2_raises (b : float) (e : exn) : float_pow2 b = Raise e -> e = OverflowError.
Proof.
  unfold float_pow2.
  repeat match goal with |- context [if ?c then _ else _] => destruct c end; congruence.
Qed.


(** On doubles [solve_quadratic] raises [OverflowError] when [b ** 2] does;
    otherwise it raises [ZeroDivisionError] when [a] is a zero and returns
    when it is not. *)
Lemma b64_solve (a b c : float) :
  match float_pow2 b with
  | Raise e => e = OverflowError /\ solve_quadratic a b c = Raise OverflowError
  | Ok _ =>
      if a =? 0
      then solve_quadratic a b c = Raise ZeroDivisionError
      else exists r1 r2, solve_quadratic a b c = Ok (r1, r2)
  end.
Proof.
  unfold solve_quadratic.
  destruct (float_pow2 b) as [b2|e] eqn:Hp; cbn [rbind].
  - destruct (b64_sqrt_guarded (fsub b2 (fmul (fmul (of_int 4) a) c))) as [sd ->].
    cbn [rbind].
    destruct (a =? 0) eqn:Ha.
    + apply eqb_zero_cases in Ha.
      rewrite b64_truediv_zero by assumption. reflexivity.
    + apply double_nonzero in Ha. change (of_int 2) with 2. cbn [fmul Binary64].
      destruct (b64_truediv_ok (num_add (Float (fneg b)) sd) _ Ha) as [r1 ->].
      destruct (b64_truediv_ok (num_sub (Float (fneg b)) sd) _ Ha) as [r2 ->].
      cbn [rbind]. eexists _, _. reflexivity.
  - apply b64_pow2_raises in Hp as ->. split; reflexivity.
Qed.

End Binary64Facts.

(** ** [algebra.py]: how [solve_quadratic] ends *)

(** The double nearest to [1e200] is [0x1.4e718d7d7625ap+664]; its square
    is out of range, and [b ** 2] is computed before anything is divided. *)
Lemma solve_quadratic_overflows :
  solve_quadratic 0%float 0x1.4e718d7d7625ap+664%float 0%float = Raise OverflowError /\
  solve_quadratic 1%float 0x1.4e718d7d7625ap+664%float 0%float = Raise OverflowError.
Proof. split; vm_compute; reflexivity. Qed.

(** C7, amended: the division by [2 * a] is unguarded.  On doubles, when
    [b ** 2] overflows the call raises [OverflowError] whatever [a] is;
    otherwise it raises [ZeroDivisionError] when [a] is zero and returns a
    pair when [a] is not.  In exact arithmetic nothing overflows: the call
    raises [ZeroDivisionError] for [a = 0] and returns for every other [a]. *)
Theorem solve_quadratic_outcome :
  (forall a b c : float,
     match float_pow2 b with
     | Raise e => e = OverflowError /\ solve_quadratic a b c = Raise OverflowError
     | Ok _ =>
         if (a =? 0)%float
         then solve_quadratic a b c = Raise ZeroDivisionError
         else exists r1 r2, solve_quadratic a b c = Ok (r1, r2)
     end) /\
  (forall b c : R, solve_quadratic 0%R b c = Raise ZeroDivisionError) /\
  (forall a b c : R, a <> 0%R -> exists r1 r2, solve_quadratic a b c = Ok (r1, r2)).
Proof.
  split; [exact b64_solve|].
  split; [exact exact_solve_zero|].
  intros a b c Ha.
  destruct (Rle_dec 0 (b * b - 4 * a * c)) as [Hd|Hd].
  - eexists _, _. apply exact_solve_real; assumption.
  - eexists _, _. apply exact_solve_complex; [assumption|lra].
Qed.

(** The three cases on doubles and the two in exact arithmetic, at inputs
    such as those of [run_demo.py]. *)
Lemma solve_quadratic_outcome_witness :
  solve_quadratic 1%float 0%float (-4)%float = Ok (Float 2%float, Float (-2)%float) /\
  solve_quadratic 0%float 1%float 1%float = Raise ZeroDivisionError /\
  (exists r1 r2, solve_quadratic 1%R 0%R (-4)%R = Ok (r1, r2)).
Proof.
  split; [vm_compute; reflexivity|].
  split; [vm_compute; reflexivity|].
  apply (proj2 (proj2 solve_quadratic_outcome) 1 0 (-4))%R. lra.
Defined.

(** ** Rounding: when a square leaves the range of the doubles *)

Section Rounding.

Local Open Scope Z_scope.

Lemma digits2_pos_bounds (m : positive) :
  2 ^ (Zpos (digits2_pos m) - 1) <= Zpos m < 2 ^ Zpos (digits2_pos m).
Proof.
  induction m as [m IH|m IH|]; cbn [digits2_pos]; [| |cbn; lia];
    rewrite Pos2Z.inj_succ;
    replace (Z.succ (Zpos (digits2_pos m)) - 1) with (Z.succ (Zpos (digits2_pos m) - 1)) by lia;
    rewrite !Z.pow_succ_r by lia; lia.
Qed.

Lemma Zdigits2_bounds (n : Z) : 0 < n -> 2 ^ (Zdigits2 n - 1) <= n < 2 ^ Zdigits2 n.
Proof. destruct n as [|p|p]; try lia. intros _. apply digits2_pos_bounds. Qed.

Lemma Zdigits2_le (n k : Z) : 0 <= n -> 0 <= k -> n < 2 ^ k -> Zdigits2 n <= k.
Proof.
  intros Hn Hk Hlt. destruct (Z.eq_dec n 0) as [->|Hz]; [cbn; lia|].
  pose proof (Zdigits2_bounds n ltac:(lia)) as [Hlo _].
  destruct (Z_le_gt_dec (Zdigits2 n) k) as [|Hgt]; [assumption|exfalso].
  assert (2 ^ k <= 2 ^ (Zdigits2 n - 1)) by (apply Z.pow_le_mono_r; lia). lia.
Qed.

Lemma Zdigits2_ge (n k : Z) : 0 < k -> 2 ^ (k - 1) <= n -> k <= Zdigits2 n.
Proof.
  intros Hk Hle.
  assert (0 < n) by (pose proof (Z.pow_pos_nonneg 2 (k - 1)); lia).
  pose proof (Zdigits2_bounds n ltac:(lia)) as [_ Hhi].
  destruct (Z_le_gt_dec k (Zdigits2 n)) as [|Hgt]; [assumption|exfalso].
  assert (2 ^ Zdigits2 n <= 2 ^ (k - 1)) by (apply Z.pow_le_mono_r; lia). lia.
Qed.

Lemma shr_1_m (r : shr_record) : 0 <= shr_m r -> shr_m (shr_1 r) = shr_m r / 2.
Proof.
  destruct r as [m rr ss]. cbn [shr_m]. intros Hm.
  destruct m as [|[p|p|]|p]; cbn [shr_1 shr_m]; try lia.
  - reflexivity.
  - apply Z.div_unique with (r := 1); lia.
  - apply Z.div_unique with (r := 0); lia.
  - reflexivity.
Qed.

Lemma pow2_xI (p : positive) : 2 ^ Zpos p~1 = 2 * (2 ^ Zpos p * 2 ^ Zpos p).
Proof.
  rewrite (Pos2Z.inj_xI p). replace (2 * Zpos p + 1) with (1 + Zpos p + Zpos p) by lia.
  rewrite !Z.pow_add_r by lia. change (2 ^ 1) with 2. ring.
Qed.

Lemma pow2_xO (p : positive) : 2 ^ Zpos p~0 = 2 ^ Zpos p * 2 ^ Zpos p.
Proof.
  rewrite (Pos2Z.inj_xO p). replace (2 * Zpos p) with (Zpos p + Zpos p) by lia.
  rewrite !Z.pow_add_r by lia. ring.
Qed.

Lemma shr_iter_m (p : positive) (r : shr_record) :
  0 <= shr_m r -> shr_m (SpecFloat.iter_pos shr_1 p r) = shr_m r / 2 ^ Zpos p.
Proof.
  revert r. induction p as [p IH|p IH|]; intros r Hr; cbn [SpecFloat.iter_pos].
  - assert (H1 : 0 <= shr_m (shr_1 r)) by (rewrite shr_1_m by assumption; apply Z.div_pos; lia).
    assert (Hp : 0 < 2 ^ Zpos p) by (apply Z.pow_pos_nonneg; lia).
    assert (H2 : 0 <= shr_m (SpecFloat.iter_pos shr_1 p (shr_1 r)))
      by (rewrite IH by assumption; apply Z.div_pos; lia).
    rewrite IH, IH, shr_1_m by assumption.
    rewrite !Z.div_div by lia.
    rewrite pow2_xI. reflexivity.
  - assert (Hp : 0 < 2 ^ Zpos p) by (apply Z.pow_pos_nonneg; lia).
    assert (H2 : 0 <= shr_m (SpecFloat.iter_pos shr_1 p r))
      by (rewrite IH by assumption; apply Z.div_pos; lia).
    rewrite IH, IH by assumption.
    rewrite !Z.div_div by lia.
    rewrite pow2_xO. reflexivity.
  - rewrite shr_1_m by assumption. reflexivity.
Qed.

Lemma shr_record_of_loc_m (m : Z) (l : location) : shr_m (shr_record_of_loc m l) = m.
Proof. destruct l as [|[]]; reflexivity. Qed.

Lemma shr_fexp_spec (mz e : Z) (l : location) :
  0 <= mz ->
  snd (shr_fexp prec emax mz e l) = e + Z.max 0 (fexp prec emax (Zdigits2 mz + e) - e) /\
  shr_m (fst (shr_fexp prec emax mz e l))
  = mz / 2 ^ Z.max 0 (fexp prec emax (Zdigits2 mz + e) - e).
Proof.
  intros Hm. unfold shr_fexp, shr.
  destruct (fexp prec emax (Zdigits2 mz + e) - e) as [|p|p]; cbn [fst snd].
  - rewrite shr_record_of_loc_m. change (Z.max 0 0) with 0.
    rewrite Z.pow_0_r, Z.div_1_r. split; [lia|reflexivity].
  - rewrite shr_iter_m by (rewrite shr_record_of_loc_m; assumption).
    rewrite shr_record_of_loc_m. change (Z.max 0 (Zpos p)) with (Zpos p).
    split; reflexivity.
  - rewrite shr_record_of_loc_m. change (Z.max 0 (Zneg p)) with 0.
    rewrite Z.pow_0_r, Z.div_1_r. split; [lia|reflexivity].
Qed.

Lemma round_nearest_even_bounds (mx : Z) (l : location) :
  mx <= round_nearest_even mx l <= mx + 1.
Proof. destruct l as [|[]]; cbn [round_nearest_even]; try destruct (Z.even mx); lia. Qed.

(** The two roundings of [binary_round_aux], in terms of divisions. *)
Lemma binary_round_aux_spec (sx : bool) (M e : Z) (l : location) :
  0 <= M ->
  exists m1 : Z,
    M / 2 ^ Z.max 0 (fexp prec emax (Zdigits2 M + e) - e) <= m1
      <= M / 2 ^ Z.max 0 (fexp prec emax (Zdigits2 M + e) - e) + 1 /\
    binary_round_aux prec emax sx M e l =
      let e1 := e + Z.max 0 (fexp prec emax (Zdigits2 M + e) - e) in
      let n2 := Z.max 0 (fexp prec emax (Zdigits2 m1 + e1) - e1) in
      match m1 / 2 ^ n2 with
      | Z0 => S754_zero sx
      | Zpos m => if e1 + n2 <=? emax - prec then S754_finite sx m (e1 + n2) else S754_infinity sx
      | Zneg _ => S754_nan
      end.
Proof.
  intros HM. unfold binary_round_aux.
  pose proof (shr_fexp_spec M e l HM) as [He Hm].
  destruct (shr_fexp prec emax M e l) as [mrs' e']. cbn [fst snd] in He, Hm.
  exists (round_nearest_even (shr_m mrs') (loc_of_shr_record mrs')).
  pose proof (round_nearest_even_bounds (shr_m mrs') (loc_of_shr_record mrs')) as Hb.
  split; [rewrite <- Hm; exact Hb|].
  assert (H0 : 0 <= M / 2 ^ Z.max 0 (fexp prec emax (Zdigits2 M + e) - e))
    by (apply Z.div_pos; [assumption|apply Z.pow_pos_nonneg; lia]).
  rewrite <- Hm in H0.
  pose proof (shr_fexp_spec (round_nearest_even (shr_m mrs') (loc_of_shr_record mrs')) e' loc_Exact
                ltac:(lia)) as [He2 Hm2].
  destruct (shr_fexp prec emax _ e' loc_Exact) as [mrs'' e'']. cbn [fst snd] in He2, Hm2.
  cbv zeta. rewrite Hm2, He2, He. reflexivity.
Qed.

Lemma div_pow2_lt (M d n : Z) :
  0 <= M -> 0 <= n -> 0 <= d -> M < 2 ^ d -> d <= n + 53 -> M / 2 ^ n < 2 ^ 53.
Proof.
  intros HM Hn Hd Hlt Hle.
  assert (0 < 2 ^ n) by (apply Z.pow_pos_nonneg; lia).
  apply Z.div_lt_upper_bound; [assumption|].
  rewrite <- Z.pow_add_r by lia.
  assert (2 ^ d <= 2 ^ (n + 53)) by (apply Z.pow_le_mono_r; lia). lia.
Qed.

Lemma SFmul_square_overflow (s : bool) (m : positive) (e : Z) :
  bounded prec emax m e = true ->
  SFis_infinity (SFmul prec emax (S754_finite s m e) (S754_finite s m e)) = (460 <=? e).
Proof.
  unfold bounded, canonical_mantissa. intros Hb.
  apply andb_prop in Hb as [Hc He]. apply Z.eqb_eq in Hc. apply Z.leb_le in He.
  cbn [SFmul].
  destruct (binary_round_aux_spec (xorb s s) (Zpos (m * m)) (e + e) loc_Exact ltac:(lia))
    as (m1 & Hm1 & ->).
  cbv zeta.
  pose proof (digits2_pos_bounds m) as [Hlo Hhi].
  remember (Zpos (digits2_pos m)) as dm eqn:Edm.
  assert (Hdm : 0 < dm) by lia.
  unfold fexp, emin, prec, emax in *.
  assert (Hdm53 : dm <= 53) by lia.
  assert (Hm53 : Zpos m < 2 ^ 53).
  { assert (2 ^ dm <= 2 ^ 53) by (apply Z.pow_le_mono_r; lia). lia. }
  rewrite Pos2Z.inj_mul in *.
  remember (Zpos m) as zm eqn:Ezm.
  assert (Hzm : 0 < zm) by lia.
  remember (zm * zm) as M eqn:EM.
  assert (HM0 : 0 < M) by nia.
  pose proof (Zdigits2_bounds M HM0) as [HMlo HMhi].
  remember (Zdigits2 M) as d eqn:Ed.
  assert (Hd106 : d <= 106).
  { subst d. apply Zdigits2_le; [lia|lia|]. change (2 ^ 106) with (2 ^ 53 * 2 ^ 53). nia. }
  assert (Hd0 : 0 <= d).
  { destruct (Z_le_gt_dec 0 d); [assumption|]. rewrite Z.pow_neg_r in HMhi by lia. lia. }
  remember (Z.max 0 (Z.max (d + (e + e) - 53) (3 - 1024 - 53) - (e + e))) as n1 eqn:En1.
  assert (Hq1 : M / 2 ^ n1 < 2 ^ 53) by (apply (div_pow2_lt M d n1); lia).
  assert (Hq0 : 0 <= M / 2 ^ n1) by (apply Z.div_pos; [lia|apply Z.pow_pos_nonneg; lia]).
  remember (M / 2 ^ n1) as q1 eqn:Eq1.
  assert (Hd1 : Zdigits2 m1 <= 54).
  { apply Zdigits2_le; [lia|lia|]. change (2 ^ 54) with (2 * 2 ^ 53). lia. }
  assert (Hd1' : 0 <= Zdigits2 m1) by (destruct m1; cbn; lia).
  remember (Zdigits2 m1) as d1 eqn:Ed1.
  remember (Z.max 0 (Z.max (d1 + (e + e + n1) - 53) (3 - 1024 - 53) - (e + e + n1))) as n2 eqn:En2.
  destruct (Z.leb_spec 460 e) as [Hge|Hlt].
  - (* overflow *)
    assert (Hdm' : dm = 53) by lia.
    assert (H52 : 2 ^ 52 <= zm) by (rewrite Hdm' in Hlo; exact Hlo).
    assert (Hd105 : 105 <= d).
    { subst d. apply Zdigits2_ge; [lia|]. change (2 ^ (105 - 1)) with (2 ^ 52 * 2 ^ 52). nia. }
    assert (Hn1 : n1 = d - 53) by lia.
    assert (Hq52 : 2 ^ 52 <= q1).
    { subst q1. apply Z.div_le_lower_bound; [apply Z.pow_pos_nonneg; lia|].
      rewrite <- Z.pow_add_r by lia. replace (n1 + 52) with (d - 1) by lia. exact HMlo. }
    assert (Hd153 : 53 <= d1).
    { subst d1. apply Zdigits2_ge; [lia|]. replace (53 - 1) with 52 by lia. lia. }
    assert (Hpos : 0 < m1 / 2 ^ n2).
    { assert (Hn2 : n2 = 0 \/ n2 = 1) by lia.
      change (2 ^ 52) with 4503599627370496 in *.
      destruct Hn2 as [-> | ->].
      - rewrite Z.pow_0_r, Z.div_1_r. lia.
      - change (2 ^ 1) with 2. apply Z.div_str_pos. lia. }
    destruct (m1 / 2 ^ n2) as [|p|p]; try lia.
    destruct (Z.leb_spec (e + e + n1 + n2) (1024 - 53)) as [Hle|Hgt]; [lia|reflexivity].
  - (* no overflow *)
    destruct (m1 / 2 ^ n2) as [|p|p]; try reflexivity.
    destruct (Z.leb_spec (e + e + n1 + n2) (1024 - 53)) as [Hle|Hgt]; [reflexivity|exfalso].
    assert (Hcase : e = 459 /\ d = 106 /\ d1 = 54).
    { clear - En1 En2 Hgt Hlt Hd106 Hd1 Hd0 Hd1'. lia. }
    destruct Hcase as (He459 & Hd & Hd154).
    assert (Hn1 : n1 = 53) by lia.
    assert (Hq : q1 < 2 ^ 53 - 1).
    { rewrite Eq1, Hn1. change (2 ^ 53) with 9007199254740992 in *.
      apply Z.div_lt_upper_bound; [lia|].
      assert (zm * zm <= 9007199254740991 * 9007199254740991)
        by (apply Z.mul_le_mono_nonneg; lia).
      lia. }
    assert (Zdigits2 m1 <= 53) by (apply Zdigits2_le; lia).
    lia.
Qed.

End Rounding.

(** ** [x ** 2] on doubles *)

Section Binary64More.

Local Open Scope float_scope.

Lemma Prim2SF_one : Prim2SF 1 = S754_finite false 4503599627370496 (-52).
Proof. reflexivity. Qed.

Lemma Prim2SF_infinity : Prim2SF infinity = S754_infinity false.
Proof. reflexivity. Qed.

Lemma Prim2SF_2p512 : Prim2SF 0x1p+512 = S754_finite false 4503599627370496 460.
Proof. reflexivity. Qed.

Lemma is_nan_spec (x : float) : is_nan x = match Prim2SF x with S754_nan => true | _ => false end.
Proof.
  unfold is_nan. rewrite FloatAxioms.eqb_spec.
  destruct (Prim2SF x) as [s|s| |s m e]; try reflexivity; try (destruct s; reflexivity).
  unfold SFeqb, SFcompare. rewrite Z.compare_refl, Pos.compare_cont_refl.
  destruct s; reflexivity.
Qed.

Lemma is_infinity_spec (x : float) : is_infinity x = SFis_infinity (Prim2SF x).
Proof.
  unfold is_infinity. rewrite FloatAxioms.eqb_spec, abs_spec, Prim2SF_infinity.
  destruct (Prim2SF x) as [s|s| |s m e]; reflexivity.
Qed.

Lemma ltb_zero_spec (x : float) :
  (x <? 0) = match Prim2SF x with
             | S754_infinity true | S754_finite true _ _ => true
             | _ => false
             end.
Proof.
  rewrite ltb_spec, Prim2SF_zero.
  destruct (Prim2SF x) as [s|s| |s m e]; try reflexivity; destruct s; reflexivity.
Qed.

(** Below zero the absolute value is the opposite. *)
Lemma abs_by_sign (x : float) : is_nan x = false -> (x =? 0) = false ->
  (if x <? 0 then - x else x) = abs x.
Proof.
  rewrite is_nan_spec, FloatAxioms.eqb_spec, Prim2SF_zero, ltb_zero_spec.
  destruct (Prim2SF x) as [s|s| |s m e] eqn:E; intros Hn Hz; try discriminate.
  - apply Prim2SF_inj. rewrite abs_spec. destruct s; [rewrite opp_spec|]; rewrite E; reflexivity.
  - apply Prim2SF_inj. rewrite abs_spec. destruct s; [rewrite opp_spec|]; rewrite E; reflexivity.
Qed.

Lemma opp_square (x : float) : (- x) * (- x) = x * x.
Proof.
  apply Prim2SF_inj. rewrite !mul_spec, opp_spec.
  destruct (Prim2SF x) as [s|s| |s m e]; try reflexivity; destruct s; reflexivity.
Qed.

Lemma abs_opp (x : float) : abs (- x) = abs x.
Proof.
  apply Prim2SF_inj. rewrite !abs_spec, opp_spec.
  destruct (Prim2SF x); reflexivity.
Qed.

Lemma is_nan_opp (x : float) : is_nan (- x) = is_nan x.
Proof. rewrite !is_nan_spec, opp_spec. destruct (Prim2SF x); reflexivity. Qed.

Lemma is_infinity_opp (x : float) : is_infinity (- x) = is_infinity x.
Proof. rewrite !is_infinity_spec, opp_spec. destruct (Prim2SF x); reflexivity. Qed.

Lemma eqb_zero_opp (x : float) : (- x =? 0) = (x =? 0).
Proof.
  rewrite !FloatAxioms.eqb_spec, opp_spec, Prim2SF_zero, !SFeqb_zero.
  destruct (Prim2SF x); reflexivity.
Qed.

Lemma answered_directly_opp (x : float) : answered_directly (- x) = answered_directly x.
Proof.
  unfold answered_directly. rewrite is_nan_opp, is_infinity_opp, eqb_zero_opp, abs_opp.
  reflexivity.
Qed.

(** On the values that [float_pow] answers itself the result is the exact
    square. *)
Lemma answered_directly_square (x : float) :
  answered_directly x = true ->
  x * x = (if is_nan x then x
           else if is_infinity x then (if x <? 0 then - x else x)
           else if x =? 0 then 0 else 1).
Proof.
  unfold answered_directly.
  rewrite is_nan_spec, is_infinity_spec, ltb_zero_spec, !FloatAxioms.eqb_spec, abs_spec,
    Prim2SF_zero, Prim2SF_one.
  destruct (Prim2SF x) as [s|s| |s m e] eqn:E; intros H; apply Prim2SF_inj; rewrite mul_spec, E;
    cbn [SFis_infinity].
  - replace (SFeqb (S754_zero s) (S754_zero false)) with true by reflexivity.
    destruct s; reflexivity.
  - destruct s; [rewrite opp_spec|]; rewrite ?E; reflexivity.
  - reflexivity.
  - replace (SFeqb (S754_finite s m e) (S754_zero false)) with false in * by (destruct s; reflexivity).
    cbn [orb SFabs] in H.
    unfold SFeqb, SFcompare in H.
    destruct (Z.compare e (-52)) eqn:Ee; try discriminate.
    destruct (Pos.compare_cont Eq m 4503599627370496) eqn:Em; try discriminate.
    apply Z.compare_eq in Ee. apply Pos.compare_eq in Em. subst m e.
    destruct s; reflexivity.
Qed.

(** [x ** 2] over a C library with [pow2]. *)
Lemma libm_pow2 (pow2 : float -> float) (x : float) :
  @float_pow2 float (Libm pow2) x =
  if answered_directly x then Ok (x * x)
  else if is_infinity (pow2 (abs x)) then Raise OverflowError
  else Ok (pow2 (abs x)).
Proof.
  destruct (answered_directly x) eqn:Ha.
  - rewrite (answered_directly_square x Ha).
    unfold float_pow2, answered_directly in *.
    change (@fzero float (Libm pow2)) with 0. change (@fone float (Libm pow2)) with 1.
    cbn [fis_nan fis_inf fltb feqb fneg fpow2 Libm].
    destruct (is_nan x) eqn:Hn; [reflexivity|].
    destruct (is_infinity x); [reflexivity|].
    destruct (x =? 0) eqn:Hz; [reflexivity|].
    rewrite abs_by_sign by assumption.
    cbn [orb] in Ha. rewrite Ha. reflexivity.
  - unfold float_pow2, answered_directly in *.
    change (@fzero float (Libm pow2)) with 0. change (@fone float (Libm pow2)) with 1.
    cbn [fis_nan fis_inf fltb feqb fneg fpow2 Libm].
    destruct (is_nan x) eqn:Hn; [discriminate|].
    destruct (is_infinity x); [discriminate|].
    destruct (x =? 0) eqn:Hz; [discriminate|].
    rewrite abs_by_sign by assumption.
    cbn [orb] in Ha. rewrite Ha. reflexivity.
Qed.

(** The square of a finite double is out of range exactly from [2^512]
    on. *)
Lemma square_overflow_threshold (x : float) :
  is_finite x && is_infinity (x * x) = is_finite x && (0x1p+512 <=? abs x).
Proof.
  unfold is_finite.
  rewrite is_nan_spec, !is_infinity_spec, mul_spec, leb_spec, abs_spec, Prim2SF_2p512.
  pose proof (Prim2SF_valid x) as Hv.
  destruct (Prim2SF x) as [s|s| |s m e];
    [destruct s; reflexivity|destruct s; reflexivity|reflexivity|].
  change (SFis_infinity (S754_finite s m e)) with false.
  cbn [negb andb SFabs]. unfold SF64mul.
  rewrite (SFmul_square_overflow s m e Hv).
  unfold SFleb, SFcompare.
  destruct (Z.compare_spec 460 e) as [<-|Hlt|Hgt].
  - rewrite Z.leb_refl.
    unfold valid_binary, bounded, canonical_mantissa, fexp, emin, prec, emax in Hv.
    apply andb_prop in Hv as [Hc _]. apply Z.eqb_eq in Hc.
    pose proof (digits2_pos_bounds m) as [Hlo _].
    assert (Hd : Zpos (digits2_pos m) = 53%Z) by lia.
    rewrite Hd in Hlo. change (2 ^ (53 - 1))%Z with (Zpos 4503599627370496) in Hlo.
    rewrite Pos.compare_cont_spec. cbn [Pos.switch_Eq].
    destruct (Pos.compare_spec 4503599627370496 m) as [Hc1|Hc1|Hc1]; [reflexivity|reflexivity|].
    exfalso. apply Pos2Z.pos_lt_pos in Hc1. exact (proj1 (Z.lt_nge _ _) Hc1 Hlo).
  - destruct (Z.leb_spec 460 e); [reflexivity|lia].
  - destruct (Z.leb_spec 460 e); [lia|reflexivity].
Qed.


(** A value that [float_pow] answers itself is not a finite double from
    [2^512] on. *)
Lemma answered_directly_small (x : float) :
  answered_directly x = true -> is_finite x && (0x1p+512 <=? abs x) = false.
Proof.
  unfold answered_directly, is_finite.
  rewrite is_nan_spec, is_infinity_spec, leb_spec, !FloatAxioms.eqb_spec, abs_spec,
    Prim2SF_zero, Prim2SF_one, Prim2SF_2p512.
  destruct (Prim2SF x) as [s|s| |s m e]; try reflexivity.
  replace (SFeqb (S754_finite s m e) (S754_zero false)) with false by (destruct s; reflexivity).
  cbn [orb negb andb SFabs SFis_infinity].
  unfold SFeqb, SFleb, SFcompare.
  destruct (Z.compare_spec e (-52)) as [->|Hlt|Hgt]; try discriminate.
  intros _. reflexivity.
Qed.

(** Any other value is finite and not zero. *)
Lemma not_answered_directly (x : float) :
  answered_directly x = false ->
  is_finite x = true /\ is_finite (abs x) = true /\ (0 <? abs x) = true.
Proof.
  unfold answered_directly, is_finite.
  rewrite !is_nan_spec, !is_infinity_spec, ltb_spec, !FloatAxioms.eqb_spec, !abs_spec,
    Prim2SF_zero.
  destruct (Prim2SF x) as [s|s| |s m e]; try (cbn; discriminate).
  intros _. repeat split.
Qed.

Lemma abs_positive (x : float) : (0 <? x) = true -> abs x = x.
Proof.
  rewrite ltb_spec, Prim2SF_zero. intros H.
  apply Prim2SF_inj. rewrite abs_spec.
  destruct (Prim2SF x) as [s|s| |s m e]; try discriminate; destruct s; try discriminate; reflexivity.
Qed.

(** The correctly rounded square of a finite positive double is infinite
    exactly from [2^512] on. *)
Lemma square_threshold (x : float) :
  is_finite x = true -> (0 <? x) = true -> is_infinity (x * x) = (0x1p+512 <=? x).
Proof.
  intros Hf Hp. pose proof (square_overflow_threshold x) as H.
  rewrite Hf, (abs_positive x Hp) in H. exact H.
Qed.

End Binary64More.

(** ** [geometry.py] *)

Section AreaCircle.

Local Open Scope float_scope.

(** At [2^512], and at the double nearest to [1e200], [radius ** 2] is out
    of range and the call raises instead of returning: with the correctly
    rounded square, and with any C library whose [pow] overflows there. *)
Lemma area_circle_overflows :
  area_circle 0x1p+512 = Raise OverflowError /\
  area_circle 0x1.4e718d7d7625ap+664 = Raise OverflowError /\
  (forall pow2 : float -> float,
     is_infinity (pow2 0x1p+512) = true ->
     @area_circle float (Libm pow2) 0x1p+512 = Raise OverflowError).
Proof.
  split; [vm_compute; reflexivity|].
  split; [vm_compute; reflexivity|].
  intros pow2 Hp. unfold area_circle. rewrite libm_pow2.
  change (answered_directly 0x1p+512) with false.
  change (abs 0x1p+512) with 0x1p+512. rewrite Hp. reflexivity.
Qed.

(** C8, amended: on doubles, over any C library, [area_circle r] is
    [math.pi * r ** 2] unless [r ** 2] overflows.  Where [r] is a NaN, an
    infinity, a zero or [+-1] the square is exact and the call returns
    [math.pi * (r * r)]; on every other [r] it raises [OverflowError] when
    the library's [pow(|r|, 2.0)] is infinite and returns [math.pi] times
    that power when it is not.  The outcome does not depend on the sign of
    [r].  With a library whose [pow(x, 2.0)] is infinite exactly from
    [2^512] on, the call raises exactly for the finite [r] with
    [|r| >= 2^512], and returns for every other [r]. *)
Theorem area_circle_formula (pow2 : float -> float) (r : float) :
  let area := @area_circle float (Libm pow2) in
  let r2 := if answered_directly r then r * r else pow2 (abs r) in
  area r = (if negb (answered_directly r) && is_infinity (pow2 (abs r))
            then Raise OverflowError else Ok (math_pi * r2)) /\
  area (- r) = area r /\
  ((forall x : float, is_finite x = true -> (0 <? x) = true ->
                      is_infinity (pow2 x) = (0x1p+512 <=? x)) ->
   area r = (if is_finite r && (0x1p+512 <=? abs r)
             then Raise OverflowError else Ok (math_pi * r2))).
Proof.
  intros area r2.
  assert (Hr : area r = (if negb (answered_directly r) && is_infinity (pow2 (abs r))
                         then Raise OverflowError else Ok (math_pi * r2))).
  { subst area r2. unfold area_circle. rewrite libm_pow2.
    destruct (answered_directly r); [reflexivity|].
    destruct (is_infinity (pow2 (abs r))); reflexivity. }
  split; [exact Hr|]. split.
  - subst area. unfold area_circle.
    rewrite !libm_pow2, answered_directly_opp, abs_opp, opp_square. reflexivity.
  - intros Hpow. rewrite Hr.
    destruct (answered_directly r) eqn:Ha.
    + rewrite (answered_directly_small r Ha). reflexivity.
    + destruct (not_answered_directly r Ha) as (Hf & Hfa & Hpos).
      rewrite Hf, (Hpow (abs r) Hfa Hpos). reflexivity.
Qed.

(** With the correctly rounded square for [pow]: the area at radius [5], as
    in [run_demo.py], and the overflow at [2^512]. *)
Lemma area_circle_formula_witness :
  @area_circle float (Libm (fun x => x * x)) 5 = Ok 0x1.3a28c59d5433bp+6 /\
  @area_circle float (Libm (fun x => x * x)) 0x1p+512 = Raise OverflowError.
Proof.
  split.
  - exact (proj2 (proj2 (area_circle_formula (fun x => x * x) 5)) square_threshold).
  - exact (proj2 (proj2 (area_circle_formula (fun x => x * x) 0x1p+512)) square_threshold).
Defined.

End AreaCircle.

(** C9: [perimeter_rectangle w h] is [2 * (w + h)], and swapping the two
    arguments does not change it, in exact arithmetic and on doubles. *)
Theorem perimeter_rectangle_symmetric :
  (forall w h : R,
     perimeter_rectangle w h = (2 * (w + h))%R /\
     perimeter_rectangle w h = perimeter_rectangle h w) /\
  (forall w h : float,
     perimeter_rectangle w h = (2 * (w + h))%float /\
     perimeter_rectangle w h = perimeter_rectangle h w).
Proof.
  split; intros w h; (split; [reflexivity|]); unfold perimeter_rectangle.
  - cbn [fadd fmul Exact]. f_equal. apply Rplus_comm.
  - cbn [fadd fmul Binary64]. f_equal. apply float_add_comm.
Qed.
